(** * go-grpc-kit: the service-discovery-to-connection pipeline

    A shallow embedding of the discovery and client packages of go-grpc-kit:

    - [pkg/discovery/etcd.go]    the lease-store registry and its key layout,
    - [pkg/discovery/consul.go]  the health-catalog registry,
    - [pkg/discovery] ServiceManager (registry bookkeeping),
    - [pkg/client/resolver.go]   the discovery resolver builder,
    - [pkg/client/factory.go]    the caching ClientFactory.

    Go strings are [string], Go [int] is [Z], Go maps are [gmap]; an
    [error] is its message; calls that may fail return a sum; the
    external stores (etcd, consul, the gRPC resolver table) are explicit
    state threaded through the operations. *)

From Stdlib Require Import ZArith Strings.String Strings.Ascii List.
From stdpp Require Import base gmap strings list pretty.

Open Scope string_scope.
Open Scope list_scope.

(** ** Go values shared by all packages *)

(** A Go [error] value is identified with its message. *)
Definition error := string.

(** [(T, error)] results: [inl v] stands for [(v, nil)], [inr e] for [(zero, e)]. *)
Definition result (A : Type) : Type := A + error.

(** What a call into the public API can do: return a value, return an
    error, or panic (a Go run-time panic unwinding through the caller). *)
Inductive outcome (A : Type) : Type :=
  | Returned (a : A)
  | Failed (e : error)
  | Panicked (msg : string).
Arguments Returned {A} a.
Arguments Failed {A} e.
Arguments Panicked {A} msg.

(** ** Strings: elements of a slash-separated path *)

Module Str.

(** Every character of [s] satisfies [p]. *)
Fixpoint all (p : ascii -> bool) (s : string) : bool :=
  match s with
  | EmptyString => true
  | String c r => p c && all p r
  end.

Definition is_slash (c : ascii) : bool := Ascii.eqb c "/".
Definition is_colon (c : ascii) : bool := Ascii.eqb c ":".
Definition no_slash (s : string) : bool := all (fun c => negb (is_slash c)) s.
Definition no_colon (s : string) : bool := all (fun c => negb (is_colon c)) s.

(** The elements between the slashes of [s]; never the empty list. *)
Fixpoint elements (s : string) : list string :=
  match s with
  | EmptyString => [EmptyString]
  | String c r =>
      if is_slash c then EmptyString :: elements r
      else match elements r with
           | e :: es => String c e :: es
           | [] => [String c EmptyString]
           end
  end.

(** [strings.Join(es, "/")]. *)
Fixpoint join (es : list string) : string :=
  match es with
  | [] => ""
  | [e] => e
  | e :: es' => e +:+ "/" +:+ join es'
  end.

Definition is_digit (c : ascii) : bool :=
  bool_decide (c ∈ ["0"; "1"; "2"; "3"; "4"; "5"; "6"; "7"; "8"; "9"]%char).

Definition starts_with_slash (s : string) : bool :=
  match s with
  | String c _ => is_slash c
  | EmptyString => false
  end.

End Str.

(** ** Go's standard [path] package (library code used by etcd.go)

    [path.Clean] is rendered on path elements: each iteration of its
    outer loop consumes one element of the input, which is either empty,
    ".", ".." or a real element, and [out] is the buffer written so far,
    kept as the list of its elements, last one first. *)

Module path.

(** One iteration of the loop of [Clean]. *)
Definition clean_elem (rooted : bool) (out : list string) (e : string) : list string :=
  if decide (e = "") then out                       (* empty path element *)
  else if decide (e = ".") then out                 (* . element *)
  else if decide (e = "..") then                    (* .. element *)
    match out with
    | top :: out' =>
        if decide (top = "..") then e :: out        (* cannot backtrack *)
        else out'                                   (* remove to last / *)
    | [] => if rooted then [] else [e]
    end
  else e :: out.                                    (* real path element *)

Definition Clean (p : string) : string :=
  if decide (p = "") then "."
  else
    let rooted := Str.starts_with_slash p in
    let out := fold_left (clean_elem rooted) (Str.elements p) [] in
    let body := Str.join (rev out) in
    if rooted then "/" +:+ body
    else if decide (body = "") then "." else body.

(** The loop of [Join]: empty elements are skipped while the buffer is
    empty; afterwards every element is appended after a slash. *)
Definition join_step (buf : string) (e : string) : string :=
  if decide (buf = "") then e else buf +:+ "/" +:+ e.

Definition Join (elem : list string) : string :=
  if forallb (fun e => bool_decide (e = "")) elem then ""
  else Clean (fold_left join_step elem "").

(** A real path element: non-empty, without a slash, neither "." nor "..". *)
Definition real_elem (e : string) : bool :=
  bool_decide (e ≠ "") && bool_decide (e ≠ ".") && bool_decide (e ≠ "..")
  && Str.no_slash e.

(** A text that is one or more real elements separated by single
    slashes, optionally after one leading slash. *)
Definition is_clean (p : string) : bool :=
  match Str.elements p with
  | "" :: e :: es => forallb real_elem (e :: es)
  | es => forallb real_elem es
  end.

End path.

(** ** Logging (zap): the entries a component has emitted, oldest first *)

Inductive Level := DebugLevel | InfoLevel | WarnLevel | ErrorLevel.

Global Instance Level_eq_dec : EqDecision Level.
Proof. solve_decision. Defined.

Record LogEntry := {
  level : Level;
  message : string;
  fields : list (string * string)
}.

Global Instance LogEntry_eq_dec : EqDecision LogEntry.
Proof. solve_decision. Defined.

Definition Log := list LogEntry.

Definition is_error_entry (e : LogEntry) : bool := bool_decide (level e = ErrorLevel).

(** The number of [Error] entries of a log. *)
Definition errors_logged (l : list LogEntry) : nat := length (filter (fun e => is_error_entry e = true) l).

(** The number of [Warn] entries of a log. *)
Definition warnings_logged (l : list LogEntry) : nat :=
  length (filter (fun e => level e = WarnLevel) l).

(** ** A state-and-error monad for code that threads a store through
    fallible calls ([v, err := call(); if err != nil { return ... }]) *)

Definition M (S A : Type) : Type := S -> S * result A.

Definition ret {S A} (a : A) : M S A := fun s => (s, inl a).
Definition fail {S A} (e : error) : M S A := fun s => (s, inr e).
Definition bind {S A B} (c : M S A) (k : A -> M S B) : M S B :=
  fun s => match c s with
           | (s', inl a) => k a s'
           | (s', inr e) => (s', inr e)
           end.
(** [fmt.Errorf("<what>: %w", err)] around a failing call. *)
Definition wrap {S A} (what : string) (c : M S A) : M S A :=
  fun s => match c s with
           | (s', inl a) => (s', inl a)
           | (s', inr e) => (s', inr (what +:+ ": " +:+ e))
           end.
Definition modify {S} (f : S -> S) : M S unit := fun s => (f s, inl tt).
Definition gets {S A} (f : S -> A) : M S A := fun s => (s, inl (f s)).
(** A call whose error is handled on the spot instead of returned. *)
Definition attempt {S A} (c : M S A) : M S (result A) :=
  fun s => match c s with (s', r) => (s', inl r) end.

Declare Scope go_scope.
Delimit Scope go_scope with go.
Notation "'do' x <- c ; k" := (bind c (fun x => k))
  (at level 10, x name, c at level 100, k at level 200) : go_scope.
Notation "'do' ' p <- c ; k" := (bind c (fun x => match x with p => k end))
  (at level 10, p pattern, c at level 100, k at level 200) : go_scope.
Notation "c ;;; k" := (bind c (fun _ => k))
  (at level 100, k at level 200, right associativity) : go_scope.

(** The [error] a method returns: [None] is [nil]. *)
Definition status {A} (r : result A) : option error :=
  match r with inl _ => None | inr e => Some e end.

(** ** The etcd cluster, as seen through the clientv3 calls etcd.go makes *)

Module clientv3.

Definition LeaseID := Z.

(** Keys with their value and the lease they are attached to; the live
    leases; the next lease the server hands out; and, for the calls still
    to come, whether each one fails on the wire ([Some err]) or reaches
    the server ([None]; an exhausted list means no more failures). *)
Record Cluster := {
  kvs : gmap string (string * LeaseID);
  leases : gset LeaseID;
  next_lease : positive;
  faults : list (option error)
}.

Definition set_kvs (f : gmap string (string * LeaseID) -> gmap string (string * LeaseID))
    (c : Cluster) : Cluster :=
  {| kvs := f (kvs c); leases := leases c; next_lease := next_lease c; faults := faults c |}.
Definition set_leases (f : gset LeaseID -> gset LeaseID) (c : Cluster) : Cluster :=
  {| kvs := kvs c; leases := f (leases c); next_lease := next_lease c; faults := faults c |}.
Definition set_next_lease (n : positive) (c : Cluster) : Cluster :=
  {| kvs := kvs c; leases := leases c; next_lease := n; faults := faults c |}.
Definition set_faults (fs : list (option error)) (c : Cluster) : Cluster :=
  {| kvs := kvs c; leases := leases c; next_lease := next_lease c; faults := fs |}.

(** One round trip: the transport fails, or the server runs [op]. *)
Definition rpc {A} (op : M Cluster A) : M Cluster A :=
  fun c => match faults c with
           | Some e :: fs => (set_faults fs c, inr e)
           | None :: fs => op (set_faults fs c)
           | [] => op c
           end.

Definition lease_not_found : error := "etcdserver: requested lease not found".

(** [client.Grant(ctx, ttl)]: a fresh, non-zero lease. *)
Definition Grant (ttl : Z) : M Cluster LeaseID :=
  rpc (fun c =>
    let id := Zpos (next_lease c) in
    (set_next_lease (Pos.succ (next_lease c)) (set_leases (fun ls => {[id]} ∪ ls) c), inl id)).

(** [client.Put(ctx, key, val, clientv3.WithLease(lease))]. *)
Definition Put (key val : string) (lease : LeaseID) : M Cluster unit :=
  rpc (fun c =>
    if decide (lease ∈ leases c)
    then (set_kvs (fun m => <[key := (val, lease)]> m) c, inl tt)
    else (c, inr lease_not_found)).

(** [client.KeepAlive(ctx, lease)]: the renewals themselves happen in the
    background and are not part of the call. *)
Definition KeepAlive (lease : LeaseID) : M Cluster unit :=
  rpc (fun c => (c, inl tt)).

(** [client.Revoke(ctx, lease)]: the lease goes, and with it every key
    attached to it. *)
Definition Revoke (lease : LeaseID) : M Cluster unit :=
  rpc (fun c =>
    if decide (lease ∈ leases c)
    then (set_kvs (filter (fun kv => snd (snd kv) ≠ lease))
            (set_leases (fun ls => ls ∖ {[lease]}) c), inl tt)
    else (c, inr lease_not_found)).

(** [client.Delete(ctx, key)]. *)
Definition Delete (key : string) : M Cluster unit :=
  rpc (fun c => (set_kvs (delete key) c, inl tt)).

(** [client.Get(ctx, prefix, clientv3.WithPrefix())]: the [Kvs] of the response. *)
Definition Get_WithPrefix (prefix : string) : M Cluster (list (string * string)) :=
  rpc (fun c =>
    (c, inl (fmap (fun kv => (fst kv, fst (snd kv)))
               (filter (fun kv => String.prefix prefix (fst kv) = true)
                  (map_to_list (kvs c)))))).

End clientv3.

(** ** The consul agent, as seen through the api calls consul.go makes *)

Module api.

Record AgentService := {
  ID : string;
  Service : string;
  Address : string;
  Port : Z;
  Meta : gmap string string
}.

(** The instances whose health checks pass, the index of the last change,
    and the transport failures of the calls still to come. *)
Record Agent := {
  healthy : list AgentService;
  LastIndex : N;
  faults : list (option error)
}.

Definition set_faults (fs : list (option error)) (a : Agent) : Agent :=
  {| healthy := healthy a; LastIndex := LastIndex a; faults := fs |}.

Definition rpc {A} (op : M Agent A) : M Agent A :=
  fun a => match faults a with
           | Some e :: fs => (set_faults fs a, inr e)
           | None :: fs => op (set_faults fs a)
           | [] => op a
           end.

(** [client.Health().Service(name, "", true, &QueryOptions{WaitIndex: ...})]:
    the passing entries of [name] and [meta.LastIndex]. A blocking query
    answers when the index has moved past [waitIndex] or the wait time
    is over; the agent given is the one at that moment. *)
Definition Health_Service (name : string) (waitIndex : N) : M Agent (list AgentService * N) :=
  rpc (fun a =>
    (a, inl (filter (fun e => Service e = name) (healthy a), LastIndex a))).

End api.

(** ** Package discovery *)

Module discovery.

(** [ServiceInfo]; [Port] is a Go [int]. *)
Record ServiceInfo := {
  Name : string;
  Address : string;
  Port : Z;
  Metadata : gmap string string
}.

Global Instance ServiceInfo_eq_dec : EqDecision ServiceInfo.
Proof. solve_decision. Defined.

(** [fmt.Sprintf("%s:%d", address, port)]. *)
Definition host_port (address : string) (port : Z) : string :=
  address +:+ ":" +:+ pretty port.

(** The [Registry] interface, over the state [R] a backend carries.
    [Watch] is given per backend below: what it delivers depends on what
    the backend notifies. *)
Class Registry (R : Type) := {
  Register : ServiceInfo -> R -> R * option error;
  Deregister : ServiceInfo -> R -> R * option error;
  Discover : string -> R -> R * result (list ServiceInfo)
}.

(** What a watch has put on its channel so far, oldest first, and whether
    the channel has been closed. *)
Record Stream := {
  delivered : list (list ServiceInfo);
  closed : bool
}.

Definition still_open : Stream := {| delivered := []; closed := false |}.
Definition now_closed : Stream := {| delivered := []; closed := true |}.
(** [ch <- services], ahead of what follows. *)
Definition send (services : list ServiceInfo) (st : Stream) : Stream :=
  {| delivered := services :: delivered st; closed := closed st |}.

(** *** etcd.go *)

Module EtcdRegistry.

Import clientv3.

(** The [EtcdRegistry] struct: [client] and [logger] are the handles on
    the cluster and the log that the methods are run against. *)
Record t := {
  namespace : string;
  ttl : Z;
  leaseID : LeaseID
}.

(** The struct a successful [NewEtcdRegistry] returns. *)
Definition NewEtcdRegistry (namespace : string) : t :=
  {| namespace := namespace; ttl := 30%Z; leaseID := 0%Z |}.

(** A registry, the cluster its client talks to, and its logger. *)
Record Env := {
  self : t;
  cluster : Cluster;
  logger : Log
}.

Definition set_self (r : t) (s : Env) : Env :=
  {| self := r; cluster := cluster s; logger := logger s |}.
Definition set_cluster (c : Cluster) (s : Env) : Env :=
  {| self := self s; cluster := c; logger := logger s |}.

(** [r.client.<call>]. *)
Definition client {A} (call : M Cluster A) : M Env A :=
  fun s => match call (cluster s) with (c', res) => (set_cluster c' s, res) end.

(** [r.logger.<Level>(msg, fields...)]. *)
Definition log (lvl : Level) (msg : string) (fs : list (string * string)) : M Env unit :=
  modify (fun s =>
    {| self := self s; cluster := cluster s;
       logger := (logger s ++ [{| level := lvl; message := msg; fields := fs |}])%list |}).

(** [r.leaseID = id]. *)
Definition store_leaseID (id : LeaseID) : M Env unit :=
  modify (fun s =>
    set_self {| namespace := namespace (self s); ttl := ttl (self s); leaseID := id |} s).

Definition buildServiceKey (r : t) (serviceName address : string) (port : Z) : string :=
  path.Join [namespace r; "services"; serviceName; host_port address port].

Definition buildServicePrefix (r : t) (serviceName : string) : string :=
  path.Join [namespace r; "services"; serviceName] +:+ "/".

(** The key a record is stored under by the registry of [s]. *)
Definition key_of (s : Env) (service : ServiceInfo) : string :=
  buildServiceKey (self s) (Name service) (Address service) (Port service).

(** The key layout as the specification writes it:
    [{namespace}/services/{name}/{address}:{port}] and
    [{namespace}/services/{name}/]. *)
Definition spec_key (ns name address : string) (port : Z) : string :=
  ns +:+ "/services/" +:+ name +:+ "/" +:+ address +:+ ":" +:+ pretty port.
Definition spec_prefix (ns name : string) : string :=
  ns +:+ "/services/" +:+ name +:+ "/".

Section Json.

(** [encoding/json] on [ServiceInfo] values. *)
Context (json_Marshal : ServiceInfo -> result string).
Context (json_Unmarshal : string -> result ServiceInfo).

Definition Register (service : ServiceInfo) : M Env unit :=
  (do r <- gets self;
   do lease <- wrap "failed to grant lease" (client (Grant (ttl r)));
   store_leaseID lease ;;;
   do data <- wrap "failed to marshal service info" (fun s => (s, json_Marshal service));
   let key := buildServiceKey r (Name service) (Address service) (Port service) in
   wrap "failed to register service" (client (Put key data lease)) ;;;
   wrap "failed to keep alive lease" (client (KeepAlive lease)) ;;;
   log InfoLevel "Service registered"
     [("service", Name service); ("address", Address service);
      ("port", pretty (Port service)); ("key", key)])%go.

Definition Deregister (service : ServiceInfo) : M Env unit :=
  (do r <- gets self;
   (if decide (leaseID r ≠ 0%Z)
    then do res <- attempt (client (Revoke (leaseID r)));
         match res with
         | inr err => log WarnLevel "Failed to revoke lease" [("error", err)]
         | inl _ => ret tt
         end
    else ret tt) ;;;
   let key := buildServiceKey r (Name service) (Address service) (Port service) in
   wrap "failed to deregister service" (client (Delete key)) ;;;
   log InfoLevel "Service deregistered"
     [("service", Name service); ("address", Address service);
      ("port", pretty (Port service))])%go.

(** The loop of [Discover] over [resp.Kvs]. *)
Fixpoint decode (kvs : list (string * string)) (services : list ServiceInfo)
    : M Env (list ServiceInfo) :=
  match kvs with
  | [] => ret services
  | (key, value) :: rest =>
      match json_Unmarshal value with
      | inr err =>
          (log WarnLevel "Failed to unmarshal service info" [("key", key); ("error", err)] ;;;
           decode rest services)%go
      | inl service => decode rest (services ++ [service])%list
      end
  end.

Definition Discover (serviceName : string) : M Env (list ServiceInfo) :=
  (do r <- gets self;
   let prefix := buildServicePrefix r serviceName in
   do kvs <- wrap "failed to discover services" (client (Get_WithPrefix prefix));
   decode kvs [])%go.

(** The records the loop of [Discover] keeps for [kvs]: one for each
    value that decodes, in the order of [kvs]. *)
Definition decodable (kvs : list (string * string)) : list ServiceInfo :=
  omap (fun kv => match json_Unmarshal (snd kv) with
                  | inl service => Some service
                  | inr _ => None
                  end) kvs.

(** The values of [kvs] that do not decode. *)
Definition undecodable (kvs : list (string * string)) : list (string * string) :=
  filter (fun kv => status (json_Unmarshal (snd kv)) ≠ None) kvs.

(** The entries of the cluster [c] under the prefix of [serviceName]. *)
Definition entries (r : t) (c : Cluster) (serviceName : string) : list (string * string) :=
  (fun kv => (fst kv, fst (snd kv))) <$>
    filter (fun kv => String.prefix (buildServicePrefix r serviceName) (fst kv) = true)
      (map_to_list (kvs c)).

(** What the goroutine of [Watch] meets next: a response on [watchCh],
    with the cluster as it is when the list is read again and with the
    case its [select] takes, or [watchCh] closed. *)
Record WatchResponse := {
  Err : option error;
  cluster_then : Cluster;
  ctx_done : bool
}.

Inductive Notification :=
  | Response (resp : WatchResponse)
  | ChannelClosed.

(** The goroutine of [Watch], run on the notifications that have arrived
    so far; when they are used up it is blocked on [watchCh]. *)
Fixpoint watch_loop (serviceName : string) (inputs : list Notification) (s : Env)
    : Env * Stream :=
  match inputs with
  | [] => (s, still_open)
  | ChannelClosed :: _ => (s, now_closed)
  | Response watchResp :: rest =>
      match Err watchResp with
      | Some err =>
          (fst (log ErrorLevel "Watch error" [("error", err)] s), now_closed)
      | None =>
          match Discover serviceName (set_cluster (cluster_then watchResp) s) with
          | (s1, inr err) =>
              watch_loop serviceName rest
                (fst (log ErrorLevel "Failed to discover services on watch"
                        [("error", err)] s1))
          | (s1, inl services) =>
              if ctx_done watchResp then (s1, now_closed)
              else match watch_loop serviceName rest s1 with
                   | (s2, st) => (s2, send services st)
                   end
          end
      end
  end.

Definition Watch (serviceName : string) (inputs : list Notification) : M Env Stream :=
  (do services <- Discover serviceName;
   fun s => match watch_loop serviceName inputs s with
            | (s', st) => (s', inl (send services st))
            end)%go.

End Json.

End EtcdRegistry.

(** *** consul.go *)

Module ConsulRegistry.

(** The agent behind the registry's client, its logger, and the
    [time.Sleep] calls made so far (in seconds). *)
Record Env := {
  agent : api.Agent;
  logger : Log;
  slept : list Z
}.

Definition set_agent (a : api.Agent) (s : Env) : Env :=
  {| agent := a; logger := logger s; slept := slept s |}.

Definition client {A} (call : M api.Agent A) : M Env A :=
  fun s => match call (agent s) with (a', res) => (set_agent a' s, res) end.

Definition log (lvl : Level) (msg : string) (fs : list (string * string)) (s : Env) : Env :=
  {| agent := agent s;
     logger := (logger s ++ [{| level := lvl; message := msg; fields := fs |}])%list;
     slept := slept s |}.

(** [time.Sleep(seconds * time.Second)]. *)
Definition Sleep (seconds : Z) (s : Env) : Env :=
  {| agent := agent s; logger := logger s; slept := (slept s ++ [seconds])%list |}.

(** The [&ServiceInfo{...}] built from one health entry. *)
Definition info (service : api.AgentService) : ServiceInfo :=
  {| Name := api.Service service;
     Address := api.Address service;
     Port := api.Port service;
     Metadata := api.Meta service |}.

Definition Discover (serviceName : string) : M Env (list ServiceInfo) :=
  (do '(services, _) <-
      wrap "failed to discover services" (client (api.Health_Service serviceName 0));
   ret (map info services))%go.

(** One turn of the goroutine of [Watch]: whether [ctx.Done()] is ready
    at the first [select], the agent when the blocking query answers,
    and whether the second [select] takes [ctx.Done()] instead of the
    send. *)
Record Poll := {
  done_at_top : bool;
  agent_then : api.Agent;
  done_at_send : bool
}.

(** The goroutine of [Watch], run on the turns taken so far; when they
    are used up it is blocked in its query. *)
Fixpoint watch_loop (serviceName : string) (inputs : list Poll) (lastIndex : N) (s : Env)
    : Env * Stream :=
  match inputs with
  | [] => (s, still_open)
  | p :: rest =>
      if done_at_top p then (s, now_closed)
      else
        match client (api.Health_Service serviceName lastIndex) (set_agent (agent_then p) s) with
        | (s1, inr err) =>
            watch_loop serviceName rest lastIndex
              (Sleep 5 (log ErrorLevel "Failed to watch services" [("error", err)] s1))
        | (s1, inl (services, meta_LastIndex)) =>
            let result := map info services in
            if done_at_send p then (s1, now_closed)
            else match watch_loop serviceName rest meta_LastIndex s1 with
                 | (s2, st) => (s2, send result st)
                 end
        end
  end.

Definition Watch (serviceName : string) (inputs : list Poll) : M Env Stream :=
  (do services <- Discover serviceName;
   fun s => match watch_loop serviceName inputs 0 s with
            | (s', st) => (s', inl (send services st))
            end)%go.

End ConsulRegistry.

(** *** The lease-store backend as a [Registry] *)

Global Instance EtcdRegistry_Registry
    (json_Marshal : ServiceInfo -> result string)
    (json_Unmarshal : string -> result ServiceInfo) : Registry EtcdRegistry.Env := {|
  Register service s :=
    match EtcdRegistry.Register json_Marshal service s with (s', r) => (s', status r) end;
  Deregister service s :=
    match EtcdRegistry.Deregister service s with (s', r) => (s', status r) end;
  Discover serviceName s := EtcdRegistry.Discover json_Unmarshal serviceName s
|}.

(** *** ServiceManager *)

Record ServiceManager (R : Type) := {
  registry : R;
  logger : Log;
  services : gmap string ServiceInfo
}.
Arguments registry {R} _.
Arguments logger {R} _.
Arguments services {R} _.

Section Manager.

Context {R : Type} `{!Registry R}.

Definition NewServiceManager (registry : R) (logger : Log) : ServiceManager R :=
  {| registry := registry; logger := logger; services := ∅ |}.

(** [fmt.Sprintf("%s:%s:%d", service.Name, service.Address, service.Port)]. *)
Definition service_key (service : ServiceInfo) : string :=
  Name service +:+ ":" +:+ Address service +:+ ":" +:+ pretty (Port service).

Definition RegisterService (service : ServiceInfo) (sm : ServiceManager R)
    : ServiceManager R * option error :=
  match Register service (registry sm) with
  | (r', Some err) =>
      ({| registry := r'; logger := logger sm; services := services sm |}, Some err)
  | (r', None) =>
      ({| registry := r'; logger := logger sm;
          services := <[service_key service := service]> (services sm) |}, None)
  end.

Definition DeregisterService (service : ServiceInfo) (sm : ServiceManager R)
    : ServiceManager R * option error :=
  match Deregister service (registry sm) with
  | (r', Some err) =>
      ({| registry := r'; logger := logger sm; services := services sm |}, Some err)
  | (r', None) =>
      ({| registry := r'; logger := logger sm;
          services := delete (service_key service) (services sm) |}, None)
  end.

(** The body of the loop of [DeregisterAll], for one [service]. *)
Definition deregister_one (sm : ServiceManager R) (service : ServiceInfo) : ServiceManager R :=
  match Deregister service (registry sm) with
  | (r', Some err) =>
      {| registry := r';
         logger := (logger sm ++
           [{| level := ErrorLevel; message := "Failed to deregister service";
               fields := [("service", Name service); ("error", err)] |}])%list;
         services := services sm |}
  | (r', None) =>
      {| registry := r'; logger := logger sm; services := services sm |}
  end.

(** [DeregisterAll] when [range sm.services] yields the records in
    [order]; Go leaves the order of a map range unspecified. *)
Definition DeregisterAll_in (order : list ServiceInfo) (sm : ServiceManager R)
    : ServiceManager R * option error :=
  let sm' := fold_left deregister_one order sm in
  ({| registry := registry sm'; logger := logger sm'; services := ∅ |}, None).

Definition DeregisterAll (sm : ServiceManager R) : ServiceManager R * option error :=
  DeregisterAll_in (snd <$> map_to_list (services sm)) sm.

(** How many of the [Deregister] calls of that loop fail. *)
Fixpoint deregister_failures (order : list ServiceInfo) (r : R) : nat :=
  match order with
  | [] => 0
  | service :: rest =>
      match Deregister service r with
      | (r', Some _) => S (deregister_failures rest r')
      | (r', None) => deregister_failures rest r'
      end
  end.

Definition DiscoverServices (serviceName : string) (sm : ServiceManager R)
    : ServiceManager R * result (list ServiceInfo) :=
  match Discover serviceName (registry sm) with
  | (r', res) => ({| registry := r'; logger := logger sm; services := services sm |}, res)
  end.

End Manager.

(** *** ServiceManager and the caller's records

    [services] is a [map[string]*ServiceInfo]: a record of the set stays
    the caller's, who may write to it between two calls. Here the set
    holds the pointers, and [Records] tells what each one points to. *)

Module Pointers.

Definition Ptr := positive.

Definition Records := Ptr -> ServiceInfo.

(** [*service = value], by the caller. *)
Definition write (service : Ptr) (value : ServiceInfo) (h : Records) : Records :=
  fun p => if decide (p = service) then value else h p.

Record ServiceManager (R : Type) := {
  registry : R;
  logger : Log;
  services : gmap string Ptr
}.
Arguments registry {R} _.
Arguments logger {R} _.
Arguments services {R} _.

Section Manager.

Context {R : Type} `{!Registry R}.

Definition NewServiceManager (registry : R) (logger : Log) : ServiceManager R :=
  {| registry := registry; logger := logger; services := ∅ |}.

Definition RegisterService (service : Ptr) (h : Records) (sm : ServiceManager R)
    : ServiceManager R * option error :=
  match Register (h service) (registry sm) with
  | (r', Some err) =>
      ({| registry := r'; logger := logger sm; services := services sm |}, Some err)
  | (r', None) =>
      ({| registry := r'; logger := logger sm;
          services := <[service_key (h service) := service]> (services sm) |}, None)
  end.

Definition DeregisterService (service : Ptr) (h : Records) (sm : ServiceManager R)
    : ServiceManager R * option error :=
  match Deregister (h service) (registry sm) with
  | (r', Some err) =>
      ({| registry := r'; logger := logger sm; services := services sm |}, Some err)
  | (r', None) =>
      ({| registry := r'; logger := logger sm;
          services := delete (service_key (h service)) (services sm) |}, None)
  end.

(** The body of the loop of [DeregisterAll], for one [service]. *)
Definition deregister_one (h : Records) (sm : ServiceManager R) (service : Ptr)
    : ServiceManager R :=
  match Deregister (h service) (registry sm) with
  | (r', Some err) =>
      {| registry := r';
         logger := (logger sm ++
           [{| level := ErrorLevel; message := "Failed to deregister service";
               fields := [("service", Name (h service)); ("error", err)] |}])%list;
         services := services sm |}
  | (r', None) =>
      {| registry := r'; logger := logger sm; services := services sm |}
  end.

Definition DeregisterAll_in (order : list Ptr) (h : Records) (sm : ServiceManager R)
    : ServiceManager R * option error :=
  let sm' := fold_left (deregister_one h) order sm in
  ({| registry := registry sm'; logger := logger sm'; services := ∅ |}, None).

Definition DeregisterAll (h : Records) (sm : ServiceManager R)
    : ServiceManager R * option error :=
  DeregisterAll_in (snd <$> map_to_list (services sm)) h sm.

(** The manager as the calls above see it: each pointer of the set
    replaced by the record it points to now. *)
Definition view (h : Records) (sm : ServiceManager R) : discovery.ServiceManager R :=
  {| discovery.registry := registry sm; discovery.logger := logger sm;
     discovery.services := h <$> services sm |}.

(** What a process does with its manager and its records, one thing
    after the other: the three calls, and writes to a record. *)
Inductive Action :=
  | DoRegister (service : Ptr)
  | DoDeregister (service : Ptr)
  | DoDeregisterAll
  | DoWrite (service : Ptr) (value : ServiceInfo).

Definition act (st : Records * ServiceManager R) (a : Action) : Records * ServiceManager R :=
  match a with
  | DoRegister service => (fst st, fst (RegisterService service (fst st) (snd st)))
  | DoDeregister service => (fst st, fst (DeregisterService service (fst st) (snd st)))
  | DoDeregisterAll => (fst st, fst (DeregisterAll (fst st) (snd st)))
  | DoWrite service value => (write service value (fst st), snd st)
  end.

Definition acts (l : list Action) (st : Records * ServiceManager R)
    : Records * ServiceManager R :=
  fold_left act l st.

(** The set holds the pointer [service]. *)
Definition held (sm : ServiceManager R) (service : Ptr) : bool :=
  bool_decide (service ∈ (map_to_list (services sm)).*2).

(** [a] is not a write that changes the name, address or port of a
    record the set holds. *)
Definition keeps_key (st : Records * ServiceManager R) (a : Action) : bool :=
  match a with
  | DoWrite service value =>
      negb (held (snd st) service)
      || bool_decide (service_key value = service_key (fst st service))
  | _ => true
  end.

Fixpoint keeps_keys (l : list Action) (st : Records * ServiceManager R) : bool :=
  match l with
  | [] => true
  | a :: rest => keeps_key st a && keeps_keys rest (act st a)
  end.

(** Every record of the set sits under the key of what it holds now. *)
Definition keyed (st : Records * ServiceManager R) : Prop :=
  ∀ k service, services (snd st) !! k = Some service → k = service_key (fst st service).

End Manager.

End Pointers.

End discovery.

(** ** The gRPC runtime of the process, as factory.go uses it *)

Module grpc.

(** A [*grpc.ClientConn]: two connections are the same instance exactly
    when they are the same number. *)
Definition ClientConn := nat.

Inductive Interceptor := LoggingInterceptor | MetricsInterceptor.

Inductive DialOption :=
  | WithTransportCredentials_insecure
  | WithDefaultServiceConfig
  | MaxCallRecvMsgSize (n : Z)
  | MaxCallSendMsgSize (n : Z)
  | WithKeepaliveParams (time_s timeout_s : Z) (permitWithoutStream : bool)
  | WithChainUnaryInterceptor (chain : list Interceptor)
  | WithChainStreamInterceptor (chain : list Interceptor).

(** What was dialled and whether the connection is still open. *)
Record ConnState := {
  target : string;
  opts : list DialOption;
  is_open : bool
}.

Definition ErrClientConnClosing : error := "grpc: the client connection is closing".

End grpc.

(** ** Package client *)

Module client.

Import discovery.

(** *** resolver.go *)

(** [discoveryResolverBuilder]; its [registry] and [logger] are the
    handles of the factory that made it. *)
Record discoveryResolverBuilder := {
  builder_serviceName : string
}.

Global Instance discoveryResolverBuilder_eq_dec : EqDecision discoveryResolverBuilder.
Proof. solve_decision. Defined.

(** [resolver.Target] of a dial target [scheme:///endpoint]. *)
Record Target := {
  URL_Scheme : string;
  Endpoint : string
}.

(** [discoveryResolver]. *)
Record discoveryResolver := {
  serviceName : string;
  cc : grpc.ClientConn
}.

Definition Build (b : discoveryResolverBuilder) (target : Target) (cc : grpc.ClientConn)
    : discoveryResolver :=
  {| serviceName := builder_serviceName b; cc := cc |}.

Definition Scheme (b : discoveryResolverBuilder) : string := "discovery".

(** The service name [start] hands to [registry.Watch]. *)
Definition start_watches (r : discoveryResolver) : string := serviceName r.

(** The addresses [updateAddresses] pushes for one snapshot. *)
Definition updateAddresses (services : list ServiceInfo) : list string :=
  map (fun service => host_port (Address service) (Port service)) services.

(** The connection a resolver pushes into: the address lists handed to
    [cc.UpdateState] so far (oldest first), whether each of the calls
    still to come is refused, and the resolver's log. *)
Record ConnLayer := {
  pushed : list (list string);
  update_faults : list (option error);
  resolver_log : Log
}.

(** [r.cc.UpdateState(state)]: the state is handed over; the call may
    still report an error. *)
Definition UpdateState (addrs : list string) (cl : ConnLayer) : ConnLayer * option error :=
  match update_faults cl with
  | Some err :: fs =>
      ({| pushed := pushed cl ++ [addrs]; update_faults := fs;
          resolver_log := resolver_log cl |}, Some err)
  | fs =>
      ({| pushed := pushed cl ++ [addrs]; update_faults := tail fs;
          resolver_log := resolver_log cl |}, None)
  end.

Definition resolver_logs (lvl : Level) (msg : string) (fs : list (string * string))
    (cl : ConnLayer) : ConnLayer :=
  {| pushed := pushed cl; update_faults := update_faults cl;
     resolver_log := resolver_log cl ++ [{| level := lvl; message := msg; fields := fs |}] |}.

(** [updateAddresses] run against the connection. *)
Definition pushAddresses (r : discoveryResolver) (services : list ServiceInfo)
    (cl : ConnLayer) : ConnLayer :=
  let addrs := updateAddresses services in
  match UpdateState addrs cl with
  | (cl', Some err) =>
      resolver_logs ErrorLevel "Failed to update resolver state"
        [("service", serviceName r); ("error", err)] cl'
  | (cl', None) =>
      resolver_logs DebugLevel "Updated resolver addresses"
        [("service", serviceName r); ("count", pretty (length addrs))] cl'
  end.

(** What the [select] of [start] takes next: a snapshot from the watch
    channel, the channel found closed, or [ctx.Done()]. *)
Inductive ResolverEvent :=
  | Received (services : list ServiceInfo)
  | WatchClosed
  | ContextDone.

Inductive ResolverStatus := Watching | Stopped.

(** The loop of [start], run on what has reached its [select] so far. *)
Fixpoint resolver_loop (r : discoveryResolver) (events : list ResolverEvent)
    (cl : ConnLayer) : ConnLayer * ResolverStatus :=
  match events with
  | [] => (cl, Watching)
  | Received services :: rest => resolver_loop r rest (pushAddresses r services cl)
  | WatchClosed :: _ =>
      (resolver_logs InfoLevel "Service watch channel closed"
         [("service", serviceName r)] cl, Stopped)
  | ContextDone :: _ => (cl, Stopped)
  end.

(** [start], given what [registry.Watch] returned: an error, or a channel
    and what comes out of it. *)
Definition start_resolver (r : discoveryResolver) (watch : result (list ResolverEvent))
    (cl : ConnLayer) : ConnLayer * ResolverStatus :=
  match watch with
  | inr err =>
      (resolver_logs ErrorLevel "Failed to watch services"
         [("service", serviceName r); ("error", err)] cl, Stopped)
  | inl events => resolver_loop r events cl
  end.

(** The goroutine of [ResolveNow], given what [registry.Discover] returned. *)
Definition ResolveNow (r : discoveryResolver) (found : result (list ServiceInfo))
    (cl : ConnLayer) : ConnLayer :=
  match found with
  | inr err =>
      resolver_logs ErrorLevel "Failed to discover services"
        [("service", serviceName r); ("error", err)] cl
  | inl services => pushAddresses r services cl
  end.

(** The snapshots that reach the [select] before the loop ends. *)
Fixpoint received_until_stop (events : list ResolverEvent) : list (list ServiceInfo) :=
  match events with
  | Received services :: rest => services :: received_until_stop rest
  | _ => []
  end.

(** What a resolver finds on the channel of a watch stream. *)
Definition events_of (st : Stream) : list ResolverEvent :=
  (Received <$> delivered st) ++ (if closed st then [WatchClosed] else []).

(** *** factory.go *)

(** The part of [config.Config] that [createConnection] reads. *)
Record GRPCClientConfig := {
  Timeout : Z;
  MaxRecvMsgSize : Z;
  MaxSendMsgSize : Z;
  KeepaliveTime : Z;
  KeepaliveTimeout : Z;
  PermitWithoutStream : bool;
  EnableLogging : bool;
  EnableMetrics : bool
}.

(** The calls a factory makes outside itself. *)
Inductive Call :=
  | CallDiscover (serviceName : string) (res : result (list ServiceInfo))
  | CallRegister (serviceName : string)
  | CallDial (serviceName target : string) (res : result grpc.ClientConn)
  | CallClose (serviceName : string) (conn : grpc.ClientConn) (res : option error).

(** The process around the factories: the table of [resolver.Register]
    (by scheme), the connections dialled so far, the failures of the
    dials still to come, the calls made so far (oldest first), the log. *)
Record Process := {
  resolvers : gmap string discoveryResolverBuilder;
  conns : gmap grpc.ClientConn grpc.ConnState;
  dial_faults : list (option error);
  calls : list Call;
  logger : Log
}.

Definition record_call (c : Call) (w : Process) : Process :=
  {| resolvers := resolvers w; conns := conns w; dial_faults := dial_faults w;
     calls := (calls w ++ [c])%list; logger := logger w |}.

Definition log (lvl : Level) (msg : string) (fs : list (string * string)) (w : Process)
    : Process :=
  {| resolvers := resolvers w; conns := conns w; dial_faults := dial_faults w;
     calls := calls w;
     logger := (logger w ++ [{| level := lvl; message := msg; fields := fs |}])%list |}.

(** [resolver.Register(b)]. *)
Definition resolver_Register (b : discoveryResolverBuilder) (w : Process) : Process :=
  {| resolvers := <[Scheme b := b]> (resolvers w); conns := conns w;
     dial_faults := dial_faults w; calls := calls w; logger := logger w |}.

(** [grpc.DialContext(ctx, target, opts...)]: a new connection, or an error. *)
Definition DialContext (target : string) (opts : list grpc.DialOption) (w : Process)
    : Process * result grpc.ClientConn :=
  match dial_faults w with
  | Some err :: fs =>
      ({| resolvers := resolvers w; conns := conns w; dial_faults := fs;
          calls := calls w; logger := logger w |}, inr err)
  | fs =>
      let conn := fresh (dom (conns w)) in
      ({| resolvers := resolvers w;
          conns := <[conn := {| grpc.target := target; grpc.opts := opts;
                                grpc.is_open := true |}]> (conns w);
          dial_faults := tail fs; calls := calls w; logger := logger w |}, inl conn)
  end.

(** [conn.Close()]. *)
Definition conn_Close (conn : grpc.ClientConn) (w : Process) : Process * option error :=
  match conns w !! conn with
  | Some st =>
      if grpc.is_open st
      then ({| resolvers := resolvers w;
               conns := <[conn := {| grpc.target := grpc.target st; grpc.opts := grpc.opts st;
                                     grpc.is_open := false |}]> (conns w);
               dial_faults := dial_faults w; calls := calls w; logger := logger w |}, None)
      else (w, Some grpc.ErrClientConnClosing)
  | None => (w, Some grpc.ErrClientConnClosing)
  end.

(** [ClientFactory]; [registry] is [None] for a nil interface value. The
    mutex is rendered by what its sections make atomic. *)
Record ClientFactory (R : Type) := {
  config : GRPCClientConfig;
  registry : option R;
  clients : gmap string grpc.ClientConn
}.
Arguments config {R} _.
Arguments registry {R} _.
Arguments clients {R} _.

Definition nil_dereference : string :=
  "runtime error: invalid memory address or nil pointer dereference".

Section Factory.

Context {R : Type} `{!Registry R}.

Definition NewClientFactory (cfg : GRPCClientConfig) (registry : option R) : ClientFactory R :=
  {| config := cfg; registry := registry; clients := ∅ |}.

Definition set_registry (r : R) (f : ClientFactory R) : ClientFactory R :=
  {| config := config f; registry := Some r; clients := clients f |}.

Definition buildInterceptors (f : ClientFactory R) : list grpc.DialOption :=
  let unaryInterceptors :=
    ((if EnableLogging (config f) then [grpc.LoggingInterceptor] else []) ++
     (if EnableMetrics (config f) then [grpc.MetricsInterceptor] else []))%list in
  let streamInterceptors :=
    ((if EnableLogging (config f) then [grpc.LoggingInterceptor] else []) ++
     (if EnableMetrics (config f) then [grpc.MetricsInterceptor] else []))%list in
  ((if bool_decide (0 < length unaryInterceptors)
    then [grpc.WithChainUnaryInterceptor unaryInterceptors] else []) ++
   (if bool_decide (0 < length streamInterceptors)
    then [grpc.WithChainStreamInterceptor streamInterceptors] else []))%list.

(** The dial options [createConnection] assembles. *)
Definition dial_options (f : ClientFactory R) : list grpc.DialOption :=
  ([grpc.WithTransportCredentials_insecure; grpc.WithDefaultServiceConfig] ++
   (if bool_decide (0 < MaxRecvMsgSize (config f))%Z
    then [grpc.MaxCallRecvMsgSize (MaxRecvMsgSize (config f))] else []) ++
   (if bool_decide (0 < MaxSendMsgSize (config f))%Z
    then [grpc.MaxCallSendMsgSize (MaxSendMsgSize (config f))] else []) ++
   (if bool_decide (0 < KeepaliveTime (config f))%Z
    then [grpc.WithKeepaliveParams (KeepaliveTime (config f)) (KeepaliveTimeout (config f))
            (PermitWithoutStream (config f))] else []) ++
   buildInterceptors f)%list.

Definition registerResolver (serviceName : string) (w : Process) : Process :=
  record_call (CallRegister serviceName)
    (resolver_Register {| builder_serviceName := serviceName |} w).

Definition createConnection (f : ClientFactory R) (serviceName : string) (w : Process)
    : ClientFactory R * Process * outcome grpc.ClientConn :=
  match registry f with
  | None =>
      (* f.registry.Discover on a nil interface value *)
      (f, w, Panicked nil_dereference)
  | Some r =>
      match Discover serviceName r with
      | (r', res) =>
          let f := set_registry r' f in
          let w := record_call (CallDiscover serviceName res) w in
          match res with
          | inr err =>
              (f, w, Failed ("failed to discover service " +:+ serviceName +:+ ": " +:+ err))
          | inl services =>
              if bool_decide (length services = 0)
              then (f, w, Failed ("service " +:+ serviceName +:+ " not found"))
              else
                let opts := dial_options f in
                let '(target, w) :=
                  match registry f with
                  | Some _ =>
                      ("discovery:///" +:+ serviceName, registerResolver serviceName w)
                  | None =>
                      (serviceName,
                       log InfoLevel "Using DNS resolver for gRPC client"
                         [("service", serviceName); ("target", serviceName)] w)
                  end in
                match DialContext target opts w with
                | (w, inr err) =>
                    (f, record_call (CallDial serviceName target (inr err)) w,
                     Failed ("failed to dial " +:+ serviceName +:+ ": " +:+ err))
                | (w, inl conn) =>
                    (f,
                     log InfoLevel "Created gRPC client connection"
                       [("service", serviceName); ("target", target)]
                       (record_call (CallDial serviceName target (inl conn)) w),
                     Returned conn)
                end
          end
      end
  end.

(** The section of [GetClient] under the write lock: the second check
    and, on a miss, the creation. *)
Definition create_locked (f : ClientFactory R) (serviceName : string) (w : Process)
    : ClientFactory R * Process * outcome grpc.ClientConn :=
  match clients f !! serviceName with
  | Some conn => (f, w, Returned conn)
  | None =>
      match createConnection f serviceName w with
      | (f', w', Returned conn) =>
          ({| config := config f'; registry := registry f';
              clients := <[serviceName := conn]> (clients f') |}, w', Returned conn)
      | (f', w', out) => (f', w', out)
      end
  end.

(** [GetClient] run from start to end: the check under the read lock,
    then the section under the write lock. *)
Definition GetClient (f : ClientFactory R) (serviceName : string) (w : Process)
    : ClientFactory R * Process * outcome grpc.ClientConn :=
  match clients f !! serviceName with
  | Some conn => (f, w, Returned conn)
  | None => create_locked f serviceName w
  end.

(** The body of the loop of [Close], for one cache entry. *)
Definition close_one (w : Process) (entry : string * grpc.ClientConn) : Process :=
  match conn_Close (snd entry) w with
  | (w', Some err) =>
      log ErrorLevel "Failed to close client connection"
        [("service", fst entry); ("error", err)]
        (record_call (CallClose (fst entry) (snd entry) (Some err)) w')
  | (w', None) => record_call (CallClose (fst entry) (snd entry) None) w'
  end.

(** [Close] when [range f.clients] yields the entries in [order]. *)
Definition Close_in (order : list (string * grpc.ClientConn)) (f : ClientFactory R)
    (w : Process) : ClientFactory R * Process * option error :=
  ({| config := config f; registry := registry f; clients := ∅ |},
   fold_left close_one order w, None).

Definition Close (f : ClientFactory R) (w : Process)
    : ClientFactory R * Process * option error :=
  Close_in (map_to_list (clients f)) f w.

(** How many of the [conn.Close()] calls of that loop fail. *)
Fixpoint close_failures (order : list (string * grpc.ClientConn)) (w : Process) : nat :=
  match order with
  | [] => 0
  | entry :: rest =>
      match conn_Close (snd entry) w with
      | (_, Some _) => S (close_failures rest (close_one w entry))
      | (_, None) => close_failures rest (close_one w entry)
      end
  end.

(** *** Concurrent callers of [GetClient]

    The two locked sections of [GetClient] are the atomic steps of a
    caller; between the steps of the callers the backend may change. *)

Inductive Caller :=
  | Calling (serviceName : string)
  | Waiting (serviceName : string)
  | Done (serviceName : string) (out : outcome grpc.ClientConn).

Record System := {
  factory : ClientFactory R;
  process : Process;
  callers : list Caller
}.

Inductive Move :=
  | Run (i : nat)
  | Backend (change : R -> R)
  | Network (dial_faults : list (option error)).

Definition step (sys : System) (m : Move) : System :=
  match m with
  | Run i =>
      match callers sys !! i with
      | Some (Calling name) =>
          match clients (factory sys) !! name with
          | Some conn =>
              {| factory := factory sys; process := process sys;
                 callers := <[i := Done name (Returned conn)]> (callers sys) |}
          | None =>
              {| factory := factory sys; process := process sys;
                 callers := <[i := Waiting name]> (callers sys) |}
          end
      | Some (Waiting name) =>
          match create_locked (factory sys) name (process sys) with
          | (f', w', out) =>
              {| factory := f'; process := w';
                 callers := <[i := Done name out]> (callers sys) |}
          end
      | _ => sys
      end
  | Backend change =>
      {| factory :=
           {| config := config (factory sys);
              registry := change <$> registry (factory sys);
              clients := clients (factory sys) |};
         process := process sys; callers := callers sys |}
  | Network fs =>
      {| factory := factory sys;
         process :=
           {| resolvers := resolvers (process sys); conns := conns (process sys);
              dial_faults := fs; calls := calls (process sys);
              logger := logger (process sys) |};
         callers := callers sys |}
  end.

Definition run (schedule : list Move) (sys : System) : System :=
  fold_left step schedule sys.

(** Every name in [names] is asked for by one caller. *)
Definition start (f : ClientFactory R) (w : Process) (names : list string) : System :=
  {| factory := f; process := w; callers := Calling <$> names |}.


(** The calls that concern one service name. *)
Definition concerns (name : string) (c : Call) : bool :=
  match c with
  | CallDiscover n _ => bool_decide (n = name)
  | CallRegister n => bool_decide (n = name)
  | CallDial n _ _ => bool_decide (n = name)
  | CallClose n _ _ => bool_decide (n = name)
  end.

Definition is_dial (c : Call) : bool :=
  match c with CallDial _ _ _ => true | _ => false end.

(** A dial that gave a connection. *)
Definition created (c : Call) : bool :=
  match c with CallDial _ _ (inl _) => true | _ => false end.




(** Every cached connection is one the process has dialled, and no two
    names share one. *)
Definition cache_sound (f : ClientFactory R) (w : Process) : Prop :=
  (∀ n conn, clients f !! n = Some conn → is_Some (conns w !! conn))
  ∧ (∀ n1 n2 conn, clients f !! n1 = Some conn → clients f !! n2 = Some conn → n1 = n2).

End Factory.

(** The calls made between the process [w] and the later process [w']. *)
Definition calls_since (w w' : Process) : list Call :=
  drop (length (calls w)) (calls w').

(** *** The registry of the package's tests *)

Record MockRegistry := {
  mock_services : gmap string (list ServiceInfo)
}.

Definition NewMockRegistry : MockRegistry := {| mock_services := ∅ |}.

(** The loop of [MockRegistry.Deregister]: the first match is cut out. *)
Fixpoint remove_first (service : ServiceInfo) (l : list ServiceInfo) : list ServiceInfo :=
  match l with
  | [] => []
  | s :: rest =>
      if bool_decide (Address s = Address service ∧ Port s = Port service)
      then rest else s :: remove_first service rest
  end.

Global Instance MockRegistry_Registry : Registry MockRegistry := {|
  Register service m :=
    ({| mock_services :=
          <[Name service := (default [] (mock_services m !! Name service) ++ [service])%list]>
            (mock_services m) |}, None);
  Deregister service m :=
    ({| mock_services :=
          match mock_services m !! Name service with
          | Some l => <[Name service := remove_first service l]> (mock_services m)
          | None => mock_services m
          end |}, None);
  Discover serviceName m := (m, inl (default [] (mock_services m !! serviceName)))
|}.

End client.

(** ** Sample values: the set-up of the package's tests *)

Module sample.

Import discovery client.

Definition cfg : GRPCClientConfig :=
  {| Timeout := 30; MaxRecvMsgSize := 0; MaxSendMsgSize := 0; KeepaliveTime := 0;
     KeepaliveTimeout := 0; PermitWithoutStream := false;
     EnableLogging := false; EnableMetrics := false |}.

(** A process that has dialled nothing yet. *)
Definition fresh_process : Process :=
  {| resolvers := ∅; conns := ∅; dial_faults := []; calls := []; logger := [] |}.

Definition test_service : ServiceInfo :=
  {| Name := "test-service"; Address := "localhost"; Port := 9090; Metadata := ∅ |}.

Definition greeter : ServiceInfo :=
  {| Name := "greeter"; Address := "10.0.0.5"; Port := 9090; Metadata := ∅ |}.

Definition greeter2 : ServiceInfo :=
  {| Name := "greeter"; Address := "10.0.0.5"; Port := 9091; Metadata := ∅ |}.

(** [NewMockRegistry()] after [registry.Register(ctx, service)]. *)
Definition test_registry : MockRegistry :=
  fst (Register test_service NewMockRegistry).

Definition test_factory : ClientFactory MockRegistry :=
  NewClientFactory cfg (Some test_registry).

(** A factory over a registry that knows no service. *)
Definition empty_factory : ClientFactory MockRegistry :=
  NewClientFactory cfg (Some NewMockRegistry).

(** An etcd cluster holding nothing, all of whose calls succeed. *)
Definition empty_cluster : clientv3.Cluster :=
  {| clientv3.kvs := ∅; clientv3.leases := ∅; clientv3.next_lease := 1;
     clientv3.faults := [] |}.

Definition etcd_env (c : clientv3.Cluster) : EtcdRegistry.Env :=
  {| EtcdRegistry.self := EtcdRegistry.NewEtcdRegistry "/grpc-kit";
     EtcdRegistry.cluster := c; EtcdRegistry.logger := [] |}.

(** Stand-ins for [json.Marshal] and [json.Unmarshal]: the stored text is
    the name of the record. *)
Definition marshal (service : ServiceInfo) : result string := inl (Name service).
Definition unmarshal (data : string) : result ServiceInfo :=
  if decide (data = "greeter") then inl greeter else inr "invalid character".

(** A consul agent with one passing instance of "greeter". *)
Definition agent : api.Agent :=
  {| api.healthy :=
       [{| api.ID := "greeter-10.0.0.5-9090"; api.Service := "greeter";
           api.Address := "10.0.0.5"; api.Port := 9090; api.Meta := ∅ |}];
     api.LastIndex := 7; api.faults := [] |}.

Definition consul_env : ConsulRegistry.Env :=
  {| ConsulRegistry.agent := agent; ConsulRegistry.logger := [];
     ConsulRegistry.slept := [] |}.


(** The process and the factory after [GetClient("test-service")]. *)
Definition after_first : ClientFactory MockRegistry * Process :=
  fst (GetClient test_factory "test-service" fresh_process).

(** The lease-store backend with these stand-ins, as a [Registry]. *)
Definition etcd_registry : Registry EtcdRegistry.Env :=
  EtcdRegistry_Registry marshal unmarshal.

(** A manager over an etcd registry none of whose calls gets through,
    holding two records. *)
Definition unreachable_manager : ServiceManager EtcdRegistry.Env :=
  {| discovery.registry :=
       etcd_env {| clientv3.kvs := ∅; clientv3.leases := ∅; clientv3.next_lease := 1;
                   clientv3.faults := [Some "context deadline exceeded";
                                       Some "context deadline exceeded"] |};
     discovery.logger := [];
     discovery.services :=
       {[service_key greeter := greeter; service_key greeter2 := greeter2]} |}.

(** An etcd cluster that holds the record of [greeter] under its key. *)
Definition greeter_cluster : clientv3.Cluster :=
  {| clientv3.kvs := {[ "/grpc-kit/services/greeter/10.0.0.5:9090" := ("greeter", 1%Z) ]};
     clientv3.leases := {[ 1%Z ]}; clientv3.next_lease := 2;
     clientv3.faults := [] |}.

(** A manager over the registry of the tests, holding [test_service]. *)
Definition test_manager : ServiceManager MockRegistry :=
  {| discovery.registry := test_registry; discovery.logger := [];
     discovery.services := {[service_key test_service := test_service]} |}.

(** The consul agent when its next query fails on the wire. *)
Definition failing_agent : api.Agent :=
  {| api.healthy := api.healthy agent; api.LastIndex := 7;
     api.faults := [Some "connection refused"] |}.

Definition compacted : error := "etcdserver: mvcc: required revision has been compacted".

(** An etcd cluster with two entries for "greeter": the record of
    [greeter], and a value that does not decode. *)
Definition mixed_cluster : clientv3.Cluster :=
  {| clientv3.kvs :=
       {[ "/grpc-kit/services/greeter/10.0.0.5:9090" := ("greeter", 1%Z);
          "/grpc-kit/services/greeter/10.0.0.6:9090" := ("{broken", 1%Z) ]};
     clientv3.leases := {[ 1%Z ]}; clientv3.next_lease := 2;
     clientv3.faults := [] |}.

(** An empty etcd cluster whose first call fails on the wire, and one
    whose second call does. *)
Definition failing_cluster : clientv3.Cluster :=
  {| clientv3.kvs := ∅; clientv3.leases := ∅; clientv3.next_lease := 1;
     clientv3.faults := [Some "context deadline exceeded"] |}.

Definition failing_put_cluster : clientv3.Cluster :=
  {| clientv3.kvs := ∅; clientv3.leases := ∅; clientv3.next_lease := 1;
     clientv3.faults := [None; Some "context deadline exceeded"] |}.

(** A change notification after which the cluster holds nothing. *)
Definition emptied : EtcdRegistry.WatchResponse :=
  {| EtcdRegistry.Err := None; EtcdRegistry.cluster_then := empty_cluster;
     EtcdRegistry.ctx_done := false |}.

(** A watch response that carries an error. *)
Definition broken_watch : EtcdRegistry.WatchResponse :=
  {| EtcdRegistry.Err := Some compacted; EtcdRegistry.cluster_then := greeter_cluster;
     EtcdRegistry.ctx_done := false |}.

(** Turns of the catalog loop: a query that fails, one that answers, and
    one that finds the caller's context cancelled. *)
Definition poll_failing : ConsulRegistry.Poll :=
  {| ConsulRegistry.done_at_top := false; ConsulRegistry.agent_then := failing_agent;
     ConsulRegistry.done_at_send := false |}.

Definition poll_ok : ConsulRegistry.Poll :=
  {| ConsulRegistry.done_at_top := false; ConsulRegistry.agent_then := agent;
     ConsulRegistry.done_at_send := false |}.

Definition poll_cancelled : ConsulRegistry.Poll :=
  {| ConsulRegistry.done_at_top := true; ConsulRegistry.agent_then := agent;
     ConsulRegistry.done_at_send := false |}.

(** A manager over the registry of the tests that tracks nothing yet. *)
Definition empty_manager : ServiceManager MockRegistry :=
  NewServiceManager NewMockRegistry [].

(** A manager over a reachable etcd registry that holds the record of
    [greeter] and tracks it. *)
Definition tracked_manager : ServiceManager EtcdRegistry.Env :=
  {| discovery.registry := etcd_env greeter_cluster; discovery.logger := [];
     discovery.services := {[service_key greeter := greeter]} |}.

(** The record of [greeter] with other metadata. *)
Definition greeter_v1 : ServiceInfo :=
  {| Name := "greeter"; Address := "10.0.0.5"; Port := 9090;
     Metadata := {[ "version" := "1.0.0" ]} |}.

(** A process whose next dial fails. *)
Definition failing_dial_process : Process :=
  {| resolvers := ∅; conns := ∅; dial_faults := [Some "context deadline exceeded"];
     calls := []; client.logger := [] |}.

(** The factory and the process after [GetClient("test-service")] and
    then [Close]. *)
Definition after_close : ClientFactory MockRegistry * Process :=
  fst (Close (fst after_first) (snd after_first)).

(** The factory of [after_first] once the one instance of "test-service"
    has been deregistered from its registry. *)
Definition after_deregistered : ClientFactory MockRegistry :=
  set_registry (fst (Deregister test_service test_registry)) (fst after_first).

(** The records of a caller: [greeter] behind the first pointer,
    [greeter2] behind every other. *)
Definition records : Pointers.Records :=
  fun p => if decide (p = 1%positive) then greeter else greeter2.

(** A manager over the registry of the tests; the caller registers the
    first record, changes its metadata, registers the second record and
    deregisters the first. *)
Definition metadata_changed : list Pointers.Action :=
  [Pointers.DoRegister 1%positive; Pointers.DoWrite 1%positive greeter_v1;
   Pointers.DoRegister 2%positive; Pointers.DoDeregister 1%positive].

(** The caller registers the first record and then changes its port. *)
Definition port_changed : list Pointers.Action :=
  [Pointers.DoRegister 1%positive; Pointers.DoWrite 1%positive greeter2].

End sample.

(** * Properties *)

(** ** Strings *)

Section StringFacts.

Local Lemma app_cons c s t : String c s +:+ t = String c (s +:+ t).
Proof. reflexivity. Qed.

Local Lemma app_nil_l s : "" +:+ s = s.
Proof. reflexivity. Qed.

Lemma append_nil_r s : s +:+ "" = s.
Proof. induction s as [|c s IH]; [reflexivity|]. rewrite app_cons, IH. reflexivity. Qed.

Lemma append_assoc s t u : (s +:+ t) +:+ u = s +:+ (t +:+ u).
Proof.
  induction s as [|c s IH]; [reflexivity|].
  rewrite !app_cons, IH. reflexivity.
Qed.

Lemma all_app p s t : Str.all p (s +:+ t) = Str.all p s && Str.all p t.
Proof.
  induction s as [|c s IH]; [reflexivity|].
  rewrite app_cons. simpl. rewrite IH, andb_assoc. reflexivity.
Qed.

Lemma elements_nonempty s : Str.elements s ≠ [].
Proof.
  induction s as [|c s IH]; simpl; [discriminate|].
  destruct (Str.is_slash c); [discriminate|].
  destruct (Str.elements s); discriminate.
Qed.

(** A text without a slash is one element. *)
Lemma elements_no_slash s : Str.no_slash s = true → Str.elements s = [s].
Proof.
  unfold Str.no_slash. induction s as [|c s IH]; simpl; [reflexivity|].
  intros [Hc Hs]%andb_prop. apply negb_true_iff in Hc. rewrite Hc, (IH Hs).
  reflexivity.
Qed.

(** The elements of two texts joined by a slash. *)
Lemma elements_app_slash s t :
  Str.elements (s +:+ "/" +:+ t) = (Str.elements s ++ Str.elements t)%list.
Proof.
  induction s as [|c s IH]; [reflexivity|].
  rewrite app_cons. simpl. rewrite IH.
  destruct (Str.is_slash c); [reflexivity|].
  destruct (Str.elements s) as [|e es] eqn:E; [by apply elements_nonempty in E|].
  reflexivity.
Qed.

(** Joining the elements gives the text back. *)
Lemma join_elements s : Str.join (Str.elements s) = s.
Proof.
  induction s as [|c s IH]; [reflexivity|]. simpl.
  destruct (Str.is_slash c) eqn:Hc.
  - apply Ascii.eqb_eq in Hc as ->.
    destruct (Str.elements s) as [|e es] eqn:E; [by apply elements_nonempty in E|].
    change (Str.join ("" :: e :: es)) with ("" +:+ "/" +:+ Str.join (e :: es)).
    rewrite IH. reflexivity.
  - destruct (Str.elements s) as [|e es] eqn:E; [by apply elements_nonempty in E|].
    destruct es as [|e' es].
    + simpl in *. by rewrite IH.
    + change (Str.join (String c e :: e' :: es))
        with (String c e +:+ "/" +:+ Str.join (e' :: es)).
      change (Str.join (e :: e' :: es)) with (e +:+ "/" +:+ Str.join (e' :: es)) in IH.
      rewrite app_cons, IH. reflexivity.
Qed.

Lemma join_snoc es e : es ≠ [] → Str.join (es ++ [e]) = Str.join es +:+ "/" +:+ e.
Proof.
  induction es as [|x es IH]; [done|]. intros _.
  destruct es as [|y es]; [reflexivity|].
  change (Str.join ((x :: y :: es) ++ [e])) with (x +:+ "/" +:+ Str.join ((y :: es) ++ [e])).
  rewrite IH by done.
  change (Str.join (x :: y :: es)) with (x +:+ "/" +:+ Str.join (y :: es)).
  by rewrite !append_assoc.
Qed.

(** Two texts split at their first slash. *)
Lemma app_slash_inj a a' r r' :
  Str.no_slash a = true → Str.no_slash a' = true →
  a +:+ "/" +:+ r = a' +:+ "/" +:+ r' → a = a' ∧ r = r'.
Proof.
  unfold Str.no_slash. revert a'.
  induction a as [|c a IH]; intros [|c' a']; simpl; intros Ha Ha' E.
  - by inversion E.
  - rewrite !app_cons, ?app_nil_l in E. inversion E; subst. by simpl in Ha'.
  - rewrite !app_cons, ?app_nil_l in E. inversion E; subst. by simpl in Ha.
  - rewrite !app_cons, ?app_nil_l in E. inversion E as [[Hc E']]; subst.
    apply andb_prop in Ha as [_ Ha]. apply andb_prop in Ha' as [_ Ha'].
    destruct (IH a' Ha Ha' E') as [-> ->]. done.
Qed.

(** Two texts split at their last colon. *)
Lemma app_colon_inj a a' d d' :
  Str.no_colon d = true → Str.no_colon d' = true →
  a +:+ ":" +:+ d = a' +:+ ":" +:+ d' → a = a' ∧ d = d'.
Proof.
  unfold Str.no_colon. intros Hd Hd'. revert a'.
  induction a as [|c a IH]; intros [|c' a'] E.
  - by inversion E.
  - rewrite !app_cons, ?app_nil_l in E. inversion E as [[Hc E']]. subst d.
    rewrite all_app in Hd. apply andb_prop in Hd as [_ Hd]. by simpl in Hd.
  - rewrite !app_cons, ?app_nil_l in E. inversion E as [[Hc E']]. subst d'.
    rewrite all_app in Hd'. apply andb_prop in Hd' as [_ Hd']. by simpl in Hd'.
  - rewrite !app_cons, ?app_nil_l in E. inversion E as [[Hc E']]; subst.
    destruct (IH a' E') as [-> ->]. done.
Qed.

Lemma pretty_N_char_digit x : Str.is_digit (pretty_N_char x) = true.
Proof. unfold pretty_N_char. by repeat case_match. Qed.

Lemma pretty_N_go_digits x s :
  Str.all Str.is_digit s = true → Str.all Str.is_digit (pretty_N_go x s) = true.
Proof.
  revert s. induction (N.lt_wf_0 x) as [x _ IH]; intros s Hs.
  destruct (decide (x = 0)%N) as [->|Hx]; [by rewrite pretty_N_go_0|].
  rewrite pretty_N_go_step by lia. apply IH.
  - apply N.div_lt; lia.
  - simpl. by rewrite pretty_N_char_digit.
Qed.

Lemma pretty_N_digits (x : N) : Str.all Str.is_digit (pretty x) = true.
Proof.
  unfold pretty, pretty_N. case_decide; [reflexivity|]. by apply pretty_N_go_digits.
Qed.

Lemma all_impl (p q : ascii → bool) s :
  (∀ c, p c = true → q c = true) → Str.all p s = true → Str.all q s = true.
Proof.
  intros Hpq. induction s as [|c s IH]; simpl; [done|].
  intros [Hc Hs]%andb_prop. by rewrite (Hpq c Hc), (IH Hs).
Qed.

Lemma digit_or_dash_ok c :
  (Str.is_digit c || Ascii.eqb c "-") = true →
  negb (Str.is_slash c) = true ∧ negb (Str.is_colon c) = true.
Proof.
  unfold Str.is_digit, Str.is_slash, Str.is_colon.
  intros [H%bool_decide_eq_true | H%Ascii.eqb_eq]%orb_prop.
  - repeat (apply elem_of_cons in H as [->|H]; [by split|]). by apply elem_of_nil in H.
  - by subst.
Qed.

(** [%d] writes digits and at most a sign: neither a slash nor a colon. *)
Lemma pretty_Z_chars (z : Z) :
  Str.no_slash (pretty z) = true ∧ Str.no_colon (pretty z) = true.
Proof.
  assert (Str.all (fun c => Str.is_digit c || Ascii.eqb c "-") (pretty z) = true) as H.
  { destruct z as [|p|p]; [reflexivity|..]; unfold pretty, pretty_Z.
    - eapply all_impl; [|apply (pretty_N_digits (N.pos p))].
      intros c ->. reflexivity.
    - change ("-" +:+ pretty p) with (String "-" (pretty (N.pos p))). simpl.
      eapply all_impl; [|apply (pretty_N_digits (N.pos p))].
      intros c ->. reflexivity. }
  split; (eapply all_impl; [|exact H]); intros c Hc; by apply digit_or_dash_ok in Hc as [??].
Qed.

End StringFacts.

(** ** [path.Clean] and [path.Join] on clean texts *)

Section PathFacts.

Lemma real_elem_spec e :
  path.real_elem e = true ↔ e ≠ "" ∧ e ≠ "." ∧ e ≠ ".." ∧ Str.no_slash e = true.
Proof.
  unfold path.real_elem. rewrite !andb_true_iff, !bool_decide_eq_true. tauto.
Qed.

Lemma clean_elem_real rooted out e :
  path.real_elem e = true → path.clean_elem rooted out e = e :: out.
Proof.
  intros (? & ? & ? & _)%real_elem_spec. unfold path.clean_elem.
  by rewrite !decide_False.
Qed.

Lemma fold_clean_real rooted es out :
  forallb path.real_elem es = true →
  fold_left (path.clean_elem rooted) es out = (rev es ++ out)%list.
Proof.
  revert out. induction es as [|e es IH]; intros out; simpl; [done|].
  intros [He Hes]%andb_prop. rewrite clean_elem_real, IH by done.
  by rewrite <- app_assoc.
Qed.

(** The two shapes of a clean text. *)
Lemma is_clean_cases p :
  path.is_clean p = true →
  (Str.starts_with_slash p = true ∧
     ∃ es, es ≠ [] ∧ Str.elements p = "" :: es ∧ forallb path.real_elem es = true)
  ∨ (Str.starts_with_slash p = false ∧ forallb path.real_elem (Str.elements p) = true).
Proof.
  unfold path.is_clean. destruct p as [|c p].
  - simpl. discriminate.
  - simpl. destruct (Str.is_slash c) eqn:Hc.
    + destruct (Str.elements p) as [|e es] eqn:E; [by apply elements_nonempty in E|].
      intros H. left. split; [done|]. by exists (e :: es).
    + destruct (Str.elements p) as [|e es] eqn:E; [by apply elements_nonempty in E|].
      intros H. by right.
Qed.

Lemma is_clean_nonempty p : path.is_clean p = true → p ≠ "".
Proof. by intros H ->. Qed.

(** [Clean] leaves a clean text as it is. *)
Lemma Clean_is_clean p : path.is_clean p = true → path.Clean p = p.
Proof.
  intros H. pose proof (is_clean_nonempty _ H) as Hne.
  unfold path.Clean. rewrite decide_False by done.
  destruct (is_clean_cases _ H) as [[Hr (es & Hes & E & Hreal)] | [Hr Hreal]]; rewrite Hr.
  - rewrite E. simpl.
    replace (path.clean_elem true [] "") with (@nil string) by done.
    rewrite fold_clean_real, List.app_nil_r, rev_involutive by done.
    rewrite <- (join_elements p), E.
    destruct es as [|e es']; [done|]. reflexivity.
  - rewrite fold_clean_real, List.app_nil_r, rev_involutive, join_elements by done.
    by rewrite decide_False.
Qed.

(** A clean text stays clean when a real element is appended after a slash. *)
Lemma is_clean_snoc p e :
  path.is_clean p = true → path.real_elem e = true →
  path.is_clean (p +:+ "/" +:+ e) = true.
Proof.
  intros H He. pose proof He as (_ & _ & _ & Hs)%real_elem_spec.
  unfold path.is_clean. rewrite elements_app_slash, (elements_no_slash e Hs).
  destruct (is_clean_cases _ H) as [[Hr (es & Hes & E & Hreal)] | [Hr Hreal]].
  - rewrite E. destruct es as [|x es]; [done|]. simpl in *.
    apply andb_prop in Hreal as [-> Hreal]. rewrite forallb_app, Hreal. simpl.
    by rewrite He.
  - destruct (Str.elements p) as [|x es] eqn:E; [by apply elements_nonempty in E|].
    simpl in Hreal. apply andb_prop in Hreal as [Hx Hreal].
    pose proof Hx as (Hx1 & _)%real_elem_spec.
    destruct x as [|c x]; [done|].
    change (((String c x :: es) ++ [e])%list) with (String c x :: (es ++ [e])%list).
    cbv beta iota. simpl. rewrite Hx, forallb_app, Hreal. simpl. by rewrite He.
Qed.

(** [Join] of a clean first element and real further elements is the
    elements written one after the other, a slash between them. *)
Lemma Join_clean ns es :
  path.is_clean ns = true → forallb path.real_elem es = true →
  path.Join (ns :: es) = fold_left (fun buf e => buf +:+ "/" +:+ e) es ns.
Proof.
  intros Hns Hes. pose proof (is_clean_nonempty _ Hns) as Hne.
  unfold path.Join. simpl. rewrite bool_decide_eq_false_2 by done. simpl.
  unfold path.join_step at 2. rewrite decide_True by done.
  revert ns Hns Hne. induction es as [|e es IH]; intros ns Hns Hne; simpl.
  - by apply Clean_is_clean.
  - simpl in Hes. apply andb_prop in Hes as [He Hes].
    unfold path.join_step at 2. rewrite decide_False by done.
    apply IH; [done|by apply is_clean_snoc|].
    destruct ns; done.
Qed.

End PathFacts.

(** The model of [path.Clean] and [path.Join] on the tables of Go's own
    tests of the package. *)
Example Clean_table :
  Forall (fun t => path.Clean (fst t) = snd t)
    [("", "."); ("abc", "abc"); ("abc/def", "abc/def"); ("a/b/c", "a/b/c"); (".", ".");
     ("..", ".."); ("../..", "../.."); ("../../abc", "../../abc"); ("/abc", "/abc");
     ("/", "/"); ("abc/", "abc"); ("abc/def/", "abc/def"); ("a/b/c/", "a/b/c");
     ("./", "."); ("../", ".."); ("../../", "../.."); ("/abc/", "/abc");
     ("abc//def//ghi", "abc/def/ghi"); ("//abc", "/abc"); ("///abc", "/abc");
     ("//abc//", "/abc"); ("abc//", "abc"); ("abc/./def", "abc/def");
     ("/./abc/def", "/abc/def"); ("abc/.", "abc");
     ("abc/def/ghi/../jkl", "abc/def/jkl"); ("abc/def/../ghi/../jkl", "abc/jkl");
     ("abc/def/..", "abc"); ("abc/def/../..", "."); ("/abc/def/../..", "/");
     ("abc/def/../../..", ".."); ("/abc/def/../../..", "/");
     ("abc/def/../../../ghi/jkl/../../../mno", "../../mno");
     ("abc/./../def", "def"); ("abc//./../def", "def");
     ("abc/../../././../def", "../../def")].
Proof. repeat constructor. Qed.

Example Join_table :
  Forall (fun t => path.Join (fst t) = snd t)
    [([], ""); ([""], ""); (["a"], "a"); (["a"; "b"], "a/b"); (["a"; ""], "a");
     ([""; "b"], "b"); (["/"; "a"], "/a"); (["/"; ""], "/"); (["a/"; "b"], "a/b");
     (["a/"; ""], "a"); ([""; ""], "")].
Proof. repeat constructor. Qed.

(** ** The key layout of the lease-store backend *)

Section KeyLayout.

Import discovery discovery.EtcdRegistry.

Lemma prefix_app s t : String.prefix s (s +:+ t) = true.
Proof.
  induction s as [|c s IH]; [by destruct t|].
  rewrite app_cons. simpl. by destruct (ascii_dec c c).
Qed.

Lemma host_port_has_colon a p : Str.no_colon (host_port a p) = false.
Proof.
  unfold host_port, Str.no_colon. rewrite all_app.
  change (":" +:+ pretty p) with (String ":" (pretty p)). simpl.
  apply andb_false_r.
Qed.

Lemma host_port_real a p :
  Str.no_slash a = true → path.real_elem (host_port a p) = true.
Proof.
  intros Ha. apply real_elem_spec.
  pose proof (host_port_has_colon a p) as Hc.
  repeat split; try (intros E; rewrite E in Hc; discriminate).
  unfold host_port, Str.no_slash. rewrite all_app.
  change (":" +:+ pretty p) with (String ":" (pretty p)). simpl.
  destruct (pretty_Z_chars p) as [Hs _]. unfold Str.no_slash in Ha, Hs.
  by rewrite Ha, Hs.
Qed.

Lemma buildServiceKey_clean ns n a p :
  path.is_clean ns = true → path.real_elem n = true → Str.no_slash a = true →
  buildServiceKey (NewEtcdRegistry ns) n a p = spec_key ns n a p.
Proof.
  intros Hns Hn Ha. unfold buildServiceKey, spec_key. simpl.
  rewrite Join_clean; [|done|].
  - simpl. fold (host_port a p). by rewrite !append_assoc.
  - simpl. by rewrite Hn, host_port_real.
Qed.

Lemma buildServicePrefix_clean ns n :
  path.is_clean ns = true → path.real_elem n = true →
  buildServicePrefix (NewEtcdRegistry ns) n = spec_prefix ns n.
Proof.
  intros Hns Hn. unfold buildServicePrefix, spec_prefix. simpl.
  rewrite Join_clean; [|done|].
  - simpl. by rewrite !append_assoc.
  - simpl. by rewrite Hn.
Qed.

Lemma spec_key_inj ns n a p n' a' p' :
  Str.no_slash n = true → Str.no_slash n' = true →
  spec_key ns n a p = spec_key ns n' a' p' → n = n' ∧ a = a' ∧ p = p'.
Proof.
  intros Hn Hn'. unfold spec_key. intros E.
  apply String.app_inj in E. change ("/services/" +:+ ?x) with ("/services/" +:+ x) in E.
  apply (String.app_inj "/services/") in E.
  apply app_slash_inj in E as [-> E]; [|done..].
  apply app_colon_inj in E as [-> E]; try apply pretty_Z_chars.
  by apply (inj pretty) in E.
Qed.

End KeyLayout.

(** C8, as stated, fails: with a namespace that ends in a slash (or an
    empty one) [path.Join] drops the empty element, so the key is not the
    text [{ns}/services/{n}/{a}:{p}]; and a slash inside a name or an
    address lets two distinct records share one key. *)
Lemma key_layout_not_literal :
  discovery.EtcdRegistry.buildServiceKey
    (discovery.EtcdRegistry.NewEtcdRegistry "/grpc-kit/") "greeter" "10.0.0.5" 9090
  = "/grpc-kit/services/greeter/10.0.0.5:9090"
  ∧ discovery.EtcdRegistry.spec_key "/grpc-kit/" "greeter" "10.0.0.5" 9090
  = "/grpc-kit//services/greeter/10.0.0.5:9090"
  ∧ discovery.EtcdRegistry.buildServiceKey
      (discovery.EtcdRegistry.NewEtcdRegistry "") "greeter" "10.0.0.5" 9090
    ≠ discovery.EtcdRegistry.spec_key "" "greeter" "10.0.0.5" 9090
  ∧ discovery.EtcdRegistry.buildServicePrefix
      (discovery.EtcdRegistry.NewEtcdRegistry "") "greeter"
    ≠ discovery.EtcdRegistry.spec_prefix "" "greeter"
  ∧ ("a/b", "c") ≠ ("a", "b/c")
  ∧ discovery.EtcdRegistry.buildServiceKey
      (discovery.EtcdRegistry.NewEtcdRegistry "/grpc-kit") "a/b" "c" 1
    = discovery.EtcdRegistry.buildServiceKey
        (discovery.EtcdRegistry.NewEtcdRegistry "/grpc-kit") "a" "b/c" 1.
Proof. repeat split; vm_compute; congruence. Qed.

(** C8, amended: for a clean namespace (real elements separated by single
    slashes, optionally after one leading slash), a name that is one real
    element and an address without a slash, the record key is exactly
    [{ns}/services/{n}/{a}:{p}], the prefix is exactly
    [{ns}/services/{n}/], the prefix is a proper prefix of the key, and
    the keys of distinct (name, address, port) are distinct. *)
Theorem key_layout_exact (ns n a : string) (p : Z) :
  path.is_clean ns = true → path.real_elem n = true → Str.no_slash a = true →
  let r := discovery.EtcdRegistry.NewEtcdRegistry ns in
  discovery.EtcdRegistry.buildServiceKey r n a p
    = ns +:+ "/services/" +:+ n +:+ "/" +:+ a +:+ ":" +:+ pretty p
  ∧ discovery.EtcdRegistry.buildServicePrefix r n = ns +:+ "/services/" +:+ n +:+ "/"
  ∧ String.prefix (discovery.EtcdRegistry.buildServicePrefix r n)
      (discovery.EtcdRegistry.buildServiceKey r n a p) = true
  ∧ discovery.EtcdRegistry.buildServicePrefix r n
    ≠ discovery.EtcdRegistry.buildServiceKey r n a p
  ∧ ∀ n' a' p',
      path.real_elem n' = true → Str.no_slash a' = true →
      (n', a', p') ≠ (n, a, p) →
      discovery.EtcdRegistry.buildServiceKey r n' a' p'
      ≠ discovery.EtcdRegistry.buildServiceKey r n a p.
Proof.
  intros Hns Hn Ha r. subst r.
  rewrite buildServiceKey_clean, buildServicePrefix_clean by done.
  split; [done|]. split; [done|].
  assert (discovery.EtcdRegistry.spec_key ns n a p
          = discovery.EtcdRegistry.spec_prefix ns n +:+ discovery.host_port a p) as Ekey.
  { unfold discovery.EtcdRegistry.spec_key, discovery.EtcdRegistry.spec_prefix,
      discovery.host_port. by rewrite !append_assoc. }
  split; [rewrite Ekey; apply prefix_app|].
  split.
  - rewrite Ekey. intros E.
    rewrite <- (append_nil_r (discovery.EtcdRegistry.spec_prefix ns n)) in E at 1.
    apply String.app_inj in E.
    pose proof (host_port_has_colon a p) as Hc. by rewrite <- E in Hc.
  - intros n' a' p' Hn' Ha' Hne. rewrite buildServiceKey_clean by done.
    intros E. apply spec_key_inj in E as (-> & -> & ->); [done|..].
    + by apply real_elem_spec in Hn' as (_ & _ & _ & ?).
    + by apply real_elem_spec in Hn as (_ & _ & _ & ?).
Qed.

Lemma key_layout_exact_witness :
  path.is_clean "/grpc-kit" = true ∧ path.real_elem "greeter" = true
  ∧ Str.no_slash "10.0.0.5" = true
  ∧ discovery.EtcdRegistry.buildServiceKey
      (discovery.EtcdRegistry.NewEtcdRegistry "/grpc-kit") "greeter" "10.0.0.5" 9090
    = "/grpc-kit/services/greeter/10.0.0.5:9090"
  ∧ discovery.EtcdRegistry.buildServicePrefix
      (discovery.EtcdRegistry.NewEtcdRegistry "/grpc-kit") "greeter"
    = "/grpc-kit/services/greeter/".
Proof.
  split_and!; [reflexivity..| |].
  - exact (proj1 (key_layout_exact "/grpc-kit" "greeter" "10.0.0.5" 9090
                    eq_refl eq_refl eq_refl)).
  - exact (proj1 (proj2 (key_layout_exact "/grpc-kit" "greeter" "10.0.0.5" 9090
                           eq_refl eq_refl eq_refl))).
Defined.

(** ** The stored lease of an [EtcdRegistry] *)

Section Lease.

Import clientv3 discovery discovery.EtcdRegistry.

Context (json_Marshal : ServiceInfo → result string).

(** A [Register] that meets no failure: the lease the server grants is
    stored in the struct, over whatever was there, and the record is put
    under its key with that lease. *)
Lemma Register_ok service data s :
  faults (cluster s) = [] → json_Marshal service = inl data →
  ∃ s', Register json_Marshal service s = (s', inl tt)
    ∧ leaseID (self s') = Zpos (next_lease (cluster s))
    ∧ namespace (self s') = namespace (self s)
    ∧ faults (cluster s') = []
    ∧ next_lease (cluster s') = Pos.succ (next_lease (cluster s))
    ∧ leases (cluster s') = {[Zpos (next_lease (cluster s))]} ∪ leases (cluster s)
    ∧ kvs (cluster s')
      = <[key_of s service := (data, Zpos (next_lease (cluster s)))]> (kvs (cluster s)).
Proof.
  intros Hf Hm. eexists.
  unfold Register, bind, wrap, gets, client, store_leaseID, modify, log, Grant, Put,
    KeepAlive, rpc. simpl. rewrite Hf. simpl. rewrite Hm. simpl. rewrite Hf. simpl.
  rewrite decide_True by (apply elem_of_union_l; by apply elem_of_singleton).
  simpl. rewrite Hf. simpl.
  split; [reflexivity|]. simpl. by rewrite Hf.
Qed.

(** A [Deregister] that meets no failure, on a registry whose stored
    lease is live: that lease is revoked, whichever record is given, and
    the key of the record is deleted. *)
Lemma Deregister_ok service s :
  faults (cluster s) = [] → leaseID (self s) ≠ 0%Z → leaseID (self s) ∈ leases (cluster s) →
  ∃ s', Deregister service s = (s', inl tt)
    ∧ self s' = self s
    ∧ leases (cluster s') = leases (cluster s) ∖ {[leaseID (self s)]}
    ∧ kvs (cluster s')
      = delete (key_of s service)
          (filter (fun kv => snd (snd kv) ≠ leaseID (self s)) (kvs (cluster s))).
Proof.
  intros Hf Hz Hl. eexists.
  unfold Deregister, bind, wrap, gets, client, attempt, modify, log, ret, Revoke, Delete,
    rpc. simpl. rewrite decide_True by done. simpl. rewrite Hf. simpl.
  rewrite decide_True by done. simpl. rewrite Hf. simpl.
  split; [reflexivity|]. simpl. by destruct s.
Qed.

End Lease.

(** C9: an [EtcdRegistry] has one stored lease, which every [Register]
    overwrites; [Deregister] revokes that lease whatever record it is
    given. After [Register r1], [Register r2] and [Deregister r1] on one
    registry (no call failing), the lease granted for [r2] is revoked and
    the key of [r2] is gone with it, the key of [r1] is deleted, and the
    lease granted for [r1] is still live. *)
Theorem Deregister_revokes_latest_lease
    (json_Marshal : discovery.ServiceInfo → result string)
    (s0 : discovery.EtcdRegistry.Env) (r1 r2 : discovery.ServiceInfo) (d1 d2 : string) :
  clientv3.faults (discovery.EtcdRegistry.cluster s0) = [] →
  json_Marshal r1 = inl d1 → json_Marshal r2 = inl d2 →
  ∃ s1 s2 s3,
    discovery.EtcdRegistry.Register json_Marshal r1 s0 = (s1, inl tt)
    ∧ discovery.EtcdRegistry.Register json_Marshal r2 s1 = (s2, inl tt)
    ∧ discovery.EtcdRegistry.Deregister r1 s2 = (s3, inl tt)
    ∧ discovery.EtcdRegistry.leaseID (discovery.EtcdRegistry.self s1)
      ≠ discovery.EtcdRegistry.leaseID (discovery.EtcdRegistry.self s2)
    ∧ (clientv3.kvs (discovery.EtcdRegistry.cluster s1))
        !! (discovery.EtcdRegistry.key_of s0 r1)
      = Some (d1, discovery.EtcdRegistry.leaseID (discovery.EtcdRegistry.self s1))
    ∧ (clientv3.kvs (discovery.EtcdRegistry.cluster s2))
        !! (discovery.EtcdRegistry.key_of s0 r2)
      = Some (d2, discovery.EtcdRegistry.leaseID (discovery.EtcdRegistry.self s2))
    ∧ (discovery.EtcdRegistry.leaseID (discovery.EtcdRegistry.self s2)
       ∉ clientv3.leases (discovery.EtcdRegistry.cluster s3))
    ∧ (discovery.EtcdRegistry.leaseID (discovery.EtcdRegistry.self s1)
       ∈ clientv3.leases (discovery.EtcdRegistry.cluster s3))
    ∧ (clientv3.kvs (discovery.EtcdRegistry.cluster s3))
        !! (discovery.EtcdRegistry.key_of s0 r2) = None
    ∧ (clientv3.kvs (discovery.EtcdRegistry.cluster s3))
        !! (discovery.EtcdRegistry.key_of s0 r1) = None.
Proof.
  intros Hf Hm1 Hm2.
  destruct (Register_ok json_Marshal r1 d1 s0 Hf Hm1)
    as (s1 & R1 & Hl1 & Hns1 & Hf1 & Hn1 & Hls1 & Hkv1).
  destruct (Register_ok json_Marshal r2 d2 s1 Hf1 Hm2)
    as (s2 & R2 & Hl2 & Hns2 & Hf2 & Hn2 & Hls2 & Hkv2).
  assert (discovery.EtcdRegistry.leaseID (discovery.EtcdRegistry.self s2) ≠ 0%Z) as Hnz
    by (rewrite Hl2; done).
  assert (discovery.EtcdRegistry.leaseID (discovery.EtcdRegistry.self s2)
          ∈ clientv3.leases (discovery.EtcdRegistry.cluster s2)) as Hin
    by (rewrite Hl2, Hls2; apply elem_of_union_l; by apply elem_of_singleton).
  destruct (Deregister_ok r1 s2 Hf2 Hnz Hin) as (s3 & D & Hself & Hls3 & Hkv3).
  assert (∀ r, discovery.EtcdRegistry.key_of s1 r = discovery.EtcdRegistry.key_of s0 r) as K1.
  { intros r. unfold discovery.EtcdRegistry.key_of, discovery.EtcdRegistry.buildServiceKey.
    by rewrite Hns1. }
  assert (∀ r, discovery.EtcdRegistry.key_of s2 r = discovery.EtcdRegistry.key_of s0 r) as K2.
  { intros r. rewrite <- K1.
    unfold discovery.EtcdRegistry.key_of, discovery.EtcdRegistry.buildServiceKey.
    by rewrite Hns2. }
  assert (discovery.EtcdRegistry.leaseID (discovery.EtcdRegistry.self s1)
          ≠ discovery.EtcdRegistry.leaseID (discovery.EtcdRegistry.self s2)) as Hne.
  { rewrite Hl1, Hl2, Hn1. intros [= E]. lia. }
  exists s1, s2, s3. repeat split; try done.
  - rewrite Hkv1, Hl1. apply lookup_insert_eq.
  - rewrite Hkv2, K1, Hl2. apply lookup_insert_eq.
  - rewrite Hls3. intros [_ Hnot]%elem_of_difference. apply Hnot.
    by apply elem_of_singleton.
  - rewrite Hls3, Hls2, Hls1. rewrite Hl1 in Hne |- *.
    apply elem_of_difference.
    split; [apply elem_of_union_r, elem_of_union_l; by apply elem_of_singleton|].
    intros ?%elem_of_singleton. done.
  - rewrite Hkv3, K2.
    destruct (decide (discovery.EtcdRegistry.key_of s0 r1 = discovery.EtcdRegistry.key_of s0 r2))
      as [->|Hk]; [apply lookup_delete_eq|].
    rewrite lookup_delete_ne by done. apply map_lookup_filter_None. right.
    intros [v l]. rewrite Hkv2, K1, lookup_insert_eq. intros [= <- <-]. simpl.
    rewrite Hl2. intros H. by apply H.
  - rewrite Hkv3, K2. apply lookup_delete_eq.
Qed.

Lemma Deregister_revokes_latest_lease_witness :
  clientv3.faults (discovery.EtcdRegistry.cluster (sample.etcd_env sample.empty_cluster)) = []
  ∧ sample.marshal sample.greeter = inl "greeter"
  ∧ sample.marshal sample.greeter2 = inl "greeter"
  ∧ ∃ s1 s2 s3,
      discovery.EtcdRegistry.Register sample.marshal sample.greeter
        (sample.etcd_env sample.empty_cluster) = (s1, inl tt)
      ∧ discovery.EtcdRegistry.Register sample.marshal sample.greeter2 s1 = (s2, inl tt)
      ∧ discovery.EtcdRegistry.Deregister sample.greeter s2 = (s3, inl tt)
      ∧ (clientv3.kvs (discovery.EtcdRegistry.cluster s2))
          !! (discovery.EtcdRegistry.key_of (sample.etcd_env sample.empty_cluster)
                sample.greeter2)
        = Some ("greeter", discovery.EtcdRegistry.leaseID (discovery.EtcdRegistry.self s2))
      ∧ (clientv3.kvs (discovery.EtcdRegistry.cluster s3))
          !! (discovery.EtcdRegistry.key_of (sample.etcd_env sample.empty_cluster)
                sample.greeter2)
        = None.
Proof.
  split_and!; [reflexivity..|].
  destruct (Deregister_revokes_latest_lease sample.marshal
              (sample.etcd_env sample.empty_cluster) sample.greeter sample.greeter2
              "greeter" "greeter" eq_refl eq_refl eq_refl)
    as (s1 & s2 & s3 & R1 & R2 & D & _ & _ & K2 & _ & _ & G2 & _).
  by exists s1, s2, s3.
Defined.

(** ** Watch streams *)

Section WatchFacts.

Import discovery.

(** The catalog backend: the goroutine closes the stream only at one of
    its two [select]s on [ctx.Done()]. *)
Lemma consul_closed_only_on_cancel name inputs lastIndex s s' st :
  ConsulRegistry.watch_loop name inputs lastIndex s = (s', st) →
  closed st = true →
  ∃ p, p ∈ inputs
       ∧ (ConsulRegistry.done_at_top p = true ∨ ConsulRegistry.done_at_send p = true).
Proof.
  revert lastIndex s s' st.
  induction inputs as [|p rest IH]; intros lastIndex s s' st; simpl.
  - intros [= <- <-]. discriminate.
  - destruct (ConsulRegistry.done_at_top p) eqn:Htop.
    { intros _ _. exists p. split; [left|by left]. }
    destruct (ConsulRegistry.client _ _) as [s1 [[services idx]|err]].
    + destruct (ConsulRegistry.done_at_send p) eqn:Hsend.
      { intros _ _. exists p. split; [left|by right]. }
      destruct (ConsulRegistry.watch_loop name rest idx s1) as [s2 st2] eqn:E.
      intros [= <- <-] Hc. simpl in Hc.
      destruct (IH _ _ _ _ E Hc) as (q & Hq & Hd). exists q. split; [by right|done].
    + intros E Hc. destruct (IH _ _ _ _ E Hc) as (q & Hq & Hd).
      exists q. split; [by right|done].
Qed.

(** The catalog backend: while the caller does not cancel, the stream
    stays open whatever the queries answer. *)
Lemma consul_stays_open name inputs lastIndex s :
  Forall (fun p => ConsulRegistry.done_at_top p = false
                   ∧ ConsulRegistry.done_at_send p = false) inputs →
  closed (snd (ConsulRegistry.watch_loop name inputs lastIndex s)) = false.
Proof.
  intros Hall.
  destruct (ConsulRegistry.watch_loop name inputs lastIndex s) as [s' st] eqn:E.
  simpl. destruct (closed st) eqn:Hc; [|done].
  destruct (consul_closed_only_on_cancel _ _ _ _ _ _ E Hc) as (p & Hp & Hd).
  rewrite Forall_forall in Hall. destruct (Hall p Hp) as [H1 H2].
  destruct Hd; congruence.
Qed.

(** The catalog backend: a failed query is logged, followed by a sleep
    of five seconds, and the loop goes on with the same index. *)
Lemma consul_query_error_retried name p rest lastIndex s s1 err :
  ConsulRegistry.done_at_top p = false →
  ConsulRegistry.client (api.Health_Service name lastIndex)
    (ConsulRegistry.set_agent (ConsulRegistry.agent_then p) s) = (s1, inr err) →
  ConsulRegistry.watch_loop name (p :: rest) lastIndex s
  = ConsulRegistry.watch_loop name rest lastIndex
      (ConsulRegistry.Sleep 5
         (ConsulRegistry.log ErrorLevel "Failed to watch services" [("error", err)] s1)).
Proof. intros Htop Hq. simpl. by rewrite Htop, Hq. Qed.

(** The lease-store backend: a failed re-read of the list is logged and
    the loop goes on to the next notification. *)
Lemma etcd_discover_error_skipped json_Unmarshal name resp rest s s1 err :
  EtcdRegistry.Err resp = None →
  EtcdRegistry.Discover json_Unmarshal name
    (EtcdRegistry.set_cluster (EtcdRegistry.cluster_then resp) s) = (s1, inr err) →
  EtcdRegistry.watch_loop json_Unmarshal name (EtcdRegistry.Response resp :: rest) s
  = EtcdRegistry.watch_loop json_Unmarshal name rest
      (fst (EtcdRegistry.log ErrorLevel "Failed to discover services on watch"
              [("error", err)] s1)).
Proof. intros He Hd. simpl. by rewrite He, Hd. Qed.

(** What the subscribing query returns when it reaches the backend:
    on the catalog backend the passing instances of the name, one record
    for each. *)
Lemma consul_Discover_ok name s :
  api.faults (ConsulRegistry.agent s) = [] →
  ConsulRegistry.Discover name s
  = (s, inl (map ConsulRegistry.info
               (filter (fun e => api.Service e = name) (api.healthy (ConsulRegistry.agent s))))).
Proof.
  intros Hf. unfold ConsulRegistry.Discover, bind, wrap, ConsulRegistry.client,
    api.Health_Service, api.rpc, ret. rewrite Hf. simpl. by destruct s.
Qed.

(** On the lease-store backend the records decoded from the values under
    the prefix of the name. *)
Lemma etcd_Discover_ok json_Unmarshal name s :
  clientv3.faults (EtcdRegistry.cluster s) = [] →
  EtcdRegistry.Discover json_Unmarshal name s
  = EtcdRegistry.decode json_Unmarshal
      ((fun kv => (fst kv, fst (snd kv))) <$>
         filter (fun kv => String.prefix (EtcdRegistry.buildServicePrefix
                                            (EtcdRegistry.self s) name) (fst kv) = true)
           (map_to_list (clientv3.kvs (EtcdRegistry.cluster s)))) [] s.
Proof.
  intros Hf. unfold EtcdRegistry.Discover, bind, wrap, gets, EtcdRegistry.client,
    clientv3.Get_WithPrefix, clientv3.rpc. simpl. rewrite Hf. simpl. by destruct s.
Qed.

End WatchFacts.

(** C1, on the lease-store backend: a watch response that carries an
    error is logged and ends the goroutine, which closes the stream; the
    caller has not cancelled, and the notifications that follow are never
    looked at. The catalog backend retries (lemmas
    [consul_stays_open], [consul_query_error_retried]). *)
Theorem etcd_watch_error_closes_stream
    (json_Unmarshal : string → result discovery.ServiceInfo)
    (name : string) (err : error) (c : clientv3.Cluster)
    (rest : list discovery.EtcdRegistry.Notification) (s : discovery.EtcdRegistry.Env) :
  discovery.EtcdRegistry.watch_loop json_Unmarshal name
    (discovery.EtcdRegistry.Response
       {| discovery.EtcdRegistry.Err := Some err;
          discovery.EtcdRegistry.cluster_then := c;
          discovery.EtcdRegistry.ctx_done := false |} :: rest) s
  = (fst (discovery.EtcdRegistry.log ErrorLevel "Watch error" [("error", err)] s),
     discovery.now_closed)
  ∧ discovery.closed discovery.now_closed = true.
Proof. split; reflexivity. Qed.

(** The failing run of C1: the watch of "greeter" gets a response that
    carries an error, then a change notification; the caller never
    cancels. The stream is closed after the first snapshot, one error is
    logged, and the change is not delivered. *)
Example etcd_watch_error_run :
  let run :=
    discovery.EtcdRegistry.Watch sample.unmarshal "greeter"
      [discovery.EtcdRegistry.Response
         {| discovery.EtcdRegistry.Err := Some sample.compacted;
            discovery.EtcdRegistry.cluster_then := sample.greeter_cluster;
            discovery.EtcdRegistry.ctx_done := false |};
       discovery.EtcdRegistry.Response
         {| discovery.EtcdRegistry.Err := None;
            discovery.EtcdRegistry.cluster_then := sample.empty_cluster;
            discovery.EtcdRegistry.ctx_done := false |}]
      (sample.etcd_env sample.greeter_cluster) in
  snd run = inl {| discovery.delivered := [[sample.greeter]]; discovery.closed := true |}
  ∧ errors_logged (discovery.EtcdRegistry.logger (fst run)) = 1.
Proof. vm_compute. split; reflexivity. Qed.

(** The same on the catalog backend: the query that fails is logged and
    followed by a sleep of five seconds, the next one is delivered, and
    the stream is open. *)
Example consul_watch_error_run :
  let run :=
    discovery.ConsulRegistry.Watch "greeter"
      [{| discovery.ConsulRegistry.done_at_top := false;
          discovery.ConsulRegistry.agent_then := sample.failing_agent;
          discovery.ConsulRegistry.done_at_send := false |};
       {| discovery.ConsulRegistry.done_at_top := false;
          discovery.ConsulRegistry.agent_then := sample.agent;
          discovery.ConsulRegistry.done_at_send := false |}]
      sample.consul_env in
  snd run = inl {| discovery.delivered := [[sample.greeter]; [sample.greeter]];
                   discovery.closed := false |}
  ∧ errors_logged (discovery.ConsulRegistry.logger (fst run)) = 1
  ∧ discovery.ConsulRegistry.slept (fst run) = [5%Z].
Proof. vm_compute. split_and!; reflexivity. Qed.

(** C6: for both backends, when the query [Watch] makes on subscribing
    succeeds, the first snapshot on the stream is the list that query
    returned, whatever arrives later; and when nothing has arrived yet
    the stream holds that snapshot alone and is open. *)
Theorem Watch_first_snapshot :
  (∀ (json_Unmarshal : string → result discovery.ServiceInfo) name
     (s s1 : discovery.EtcdRegistry.Env) services,
     discovery.EtcdRegistry.Discover json_Unmarshal name s = (s1, inl services) →
     (∀ inputs, ∃ s2 st,
        discovery.EtcdRegistry.Watch json_Unmarshal name inputs s = (s2, inl st)
        ∧ discovery.delivered st !! 0 = Some services)
     ∧ discovery.EtcdRegistry.Watch json_Unmarshal name [] s
       = (s1, inl {| discovery.delivered := [services]; discovery.closed := false |}))
  ∧ (∀ name (s s1 : discovery.ConsulRegistry.Env) services,
       discovery.ConsulRegistry.Discover name s = (s1, inl services) →
       (∀ inputs, ∃ s2 st,
          discovery.ConsulRegistry.Watch name inputs s = (s2, inl st)
          ∧ discovery.delivered st !! 0 = Some services)
       ∧ discovery.ConsulRegistry.Watch name [] s
         = (s1, inl {| discovery.delivered := [services]; discovery.closed := false |})).
Proof.
  split.
  - intros json_Unmarshal name s s1 services HD. split.
    + intros inputs. unfold discovery.EtcdRegistry.Watch, bind. rewrite HD.
      destruct (discovery.EtcdRegistry.watch_loop _ _ _ _) as [s2 st]. by eexists _, _.
    + unfold discovery.EtcdRegistry.Watch, bind. by rewrite HD.
  - intros name s s1 services HD. split.
    + intros inputs. unfold discovery.ConsulRegistry.Watch, bind. rewrite HD.
      destruct (discovery.ConsulRegistry.watch_loop _ _ _ _) as [s2 st]. by eexists _, _.
    + unfold discovery.ConsulRegistry.Watch, bind. by rewrite HD.
Qed.

Lemma Watch_first_snapshot_witness :
  discovery.EtcdRegistry.Discover sample.unmarshal "greeter"
    (sample.etcd_env sample.greeter_cluster)
  = (sample.etcd_env sample.greeter_cluster, inl [sample.greeter])
  ∧ discovery.EtcdRegistry.Watch sample.unmarshal "greeter" []
      (sample.etcd_env sample.greeter_cluster)
    = (sample.etcd_env sample.greeter_cluster,
       inl {| discovery.delivered := [[sample.greeter]]; discovery.closed := false |})
  ∧ discovery.ConsulRegistry.Discover "greeter" sample.consul_env
    = (sample.consul_env, inl [sample.greeter])
  ∧ discovery.ConsulRegistry.Watch "greeter" [] sample.consul_env
    = (sample.consul_env,
       inl {| discovery.delivered := [[sample.greeter]]; discovery.closed := false |}).
Proof.
  assert (discovery.EtcdRegistry.Discover sample.unmarshal "greeter"
            (sample.etcd_env sample.greeter_cluster)
          = (sample.etcd_env sample.greeter_cluster, inl [sample.greeter])) as He
    by (vm_compute; reflexivity).
  assert (discovery.ConsulRegistry.Discover "greeter" sample.consul_env
          = (sample.consul_env, inl [sample.greeter])) as Hc
    by (vm_compute; reflexivity).
  split_and!; [exact He| |exact Hc|].
  - exact (proj2 (proj1 Watch_first_snapshot sample.unmarshal "greeter" _ _ _ He)).
  - exact (proj2 (proj2 Watch_first_snapshot "greeter" _ _ _ Hc)).
Defined.

(** ** ServiceManager *)

Section ManagerFacts.

Import discovery.

Context {R : Type} `{!Registry R}.

Lemma errors_logged_snoc l e :
  errors_logged (l ++ [e]) = errors_logged l + (if is_error_entry e then 1 else 0).
Proof.
  unfold errors_logged. rewrite filter_app, length_app. f_equal.
  rewrite filter_cons, filter_nil. by destruct (is_error_entry e).
Qed.

Lemma deregister_one_services sm service :
  services (deregister_one sm service) = services sm.
Proof. unfold deregister_one. by destruct (Deregister _ _) as [r' [err|]]. Qed.

(** The loop of [DeregisterAll] logs one error for each failed call. *)
Lemma deregister_loop_logs order (sm : ServiceManager R) :
  errors_logged (logger (fold_left deregister_one order sm))
  = errors_logged (logger sm) + deregister_failures order (registry sm).
Proof.
  revert sm. induction order as [|service rest IH]; intros sm; simpl; [lia|].
  rewrite IH. unfold deregister_one.
  destruct (Deregister service (registry sm)) as [r' [err|]]; simpl.
  - rewrite errors_logged_snoc. simpl. lia.
  - done.
Qed.

Lemma DeregisterAll_in_total order (sm : ServiceManager R) :
  services (fst (DeregisterAll_in order sm)) = ∅
  ∧ snd (DeregisterAll_in order sm) = None
  ∧ errors_logged (logger (fst (DeregisterAll_in order sm)))
    = errors_logged (logger sm) + deregister_failures order (registry sm).
Proof. unfold DeregisterAll_in. simpl. repeat split. apply deregister_loop_logs. Qed.

End ManagerFacts.

(** C3, as stated, fails: when the backend call fails, [DeregisterService]
    returns the error and leaves the record in the set. Here the registry
    is the lease-store one, its calls failing on the wire. *)
Lemma DeregisterService_failure_keeps_record :
  discovery.services sample.unreachable_manager !! discovery.service_key sample.greeter
    = Some sample.greeter
  ∧ snd (@discovery.DeregisterService _ sample.etcd_registry sample.greeter
           sample.unreachable_manager)
    = Some "failed to deregister service: context deadline exceeded"
  ∧ discovery.services
      (fst (@discovery.DeregisterService _ sample.etcd_registry sample.greeter
              sample.unreachable_manager))
      !! discovery.service_key sample.greeter
    = Some sample.greeter.
Proof. vm_compute. split_and!; reflexivity. Qed.

(** C3, amended: for a record [r] of the set, [DeregisterService r]
    removes [r] (and nothing else) when the delegated [Deregister]
    succeeds; when it fails, the error is returned and the set is left
    as it was. *)
Theorem DeregisterService_removes_on_success
    {R : Type} `{!discovery.Registry R}
    (sm : discovery.ServiceManager R) (r : discovery.ServiceInfo) :
  discovery.services sm !! discovery.service_key r = Some r →
  match discovery.Deregister r (discovery.registry sm) with
  | (_, None) =>
      snd (discovery.DeregisterService r sm) = None
      ∧ discovery.services (fst (discovery.DeregisterService r sm))
        = delete (discovery.service_key r) (discovery.services sm)
      ∧ discovery.services (fst (discovery.DeregisterService r sm))
          !! discovery.service_key r = None
  | (_, Some err) =>
      snd (discovery.DeregisterService r sm) = Some err
      ∧ discovery.services (fst (discovery.DeregisterService r sm)) = discovery.services sm
  end.
Proof.
  intros _. unfold discovery.DeregisterService.
  destruct (discovery.Deregister r (discovery.registry sm)) as [r' [err|]]; simpl.
  - done.
  - repeat split. apply lookup_delete_eq.
Qed.

Lemma DeregisterService_removes_on_success_witness :
  discovery.services sample.test_manager !! discovery.service_key sample.test_service
    = Some sample.test_service
  ∧ snd (discovery.DeregisterService sample.test_service sample.test_manager) = None
  ∧ discovery.services
      (fst (discovery.DeregisterService sample.test_service sample.test_manager))
      !! discovery.service_key sample.test_service = None.
Proof.
  assert (discovery.services sample.test_manager !! discovery.service_key sample.test_service
          = Some sample.test_service) as Hin by (vm_compute; reflexivity).
  split; [exact Hin|].
  pose proof (DeregisterService_removes_on_success sample.test_manager
                sample.test_service Hin) as H.
  simpl in H. destruct H as (H1 & _ & H3). by split.
Defined.

(** ** ClientFactory *)

Section FactoryFacts.

Import discovery client.

Context {R : Type} `{!Registry R}.

Lemma calls_since_app w w' new : calls w' = calls w ++ new → calls_since w w' = new.
Proof. unfold calls_since. intros ->. by rewrite drop_app_length. Qed.

Lemma DialContext_frame target opts w w' res :
  DialContext target opts w = (w', res) →
  calls w' = calls w ∧ resolvers w' = resolvers w ∧ logger w' = logger w
  ∧ (∀ err, res = inr err → conns w' = conns w).
Proof.
  unfold DialContext.
  destruct (dial_faults w) as [|[err|] fs]; intros [= <- <-]; simpl; repeat split; done.
Qed.

(** What one run of [createConnection] does outside the cache: the cache
    and the configuration are left alone; the calls it makes all concern
    the name asked for; a connection is returned exactly when one dial
    succeeded. *)
Lemma createConnection_spec f name w f' w' out :
  createConnection f name w = (f', w', out) →
  clients f' = clients f ∧ config f' = config f
  ∧ ∃ new, calls w' = calls w ++ new
      ∧ Forall (fun c => concerns name c = true) new
      ∧ length (filter (fun c => created c = true) new)
        = match out with Returned _ => 1 | _ => 0 end.
Proof.
  unfold createConnection.
  destruct (registry f) as [r|] eqn:Hr.
  2:{ intros [= <- <- <-]. repeat split. exists []. by rewrite app_nil_r. }
  destruct (Discover name r) as [r' [services|err]].
  2:{ intros [= <- <- <-]. repeat split. eexists. split; [reflexivity|]. split.
      - repeat constructor. simpl. by rewrite bool_decide_eq_true_2.
      - done. }
  case_bool_decide.
  { intros [= <- <- <-]. repeat split. eexists. split; [reflexivity|]. split.
    - repeat constructor. simpl. by rewrite bool_decide_eq_true_2.
    - done. }
  simpl.
  destruct (DialContext _ _ _) as [w1 [conn|err]] eqn:HD;
    apply DialContext_frame in HD as (Hc & _); simpl in Hc;
    intros [= <- <- <-]; (repeat split; []); simpl; rewrite Hc, <- !app_assoc;
    (eexists; split; [reflexivity|]); (split; [|done]);
    repeat constructor; simpl; by rewrite bool_decide_eq_true_2.
Qed.

(** The section under the write lock: entries of the cache are never
    changed or dropped; a returned connection is the cached one; on a
    hit nothing at all happens. *)
Lemma create_locked_spec f name w f' w' out :
  create_locked f name w = (f', w', out) →
  (∀ n c, clients f !! n = Some c → clients f' !! n = Some c)
  ∧ (∀ c, out = Returned c → clients f' !! name = Some c)
  ∧ (∀ c, clients f !! name = Some c → f' = f ∧ w' = w ∧ out = Returned c)
  ∧ (∀ n, n ≠ name → clients f' !! n = clients f !! n)
  ∧ (clients f' !! name = None → clients f !! name = None ∧ ∀ c, out ≠ Returned c).
Proof.
  unfold create_locked. destruct (clients f !! name) as [conn|] eqn:Hhit.
  { intros [= <- <- <-]. split_and!; try done.
    - by intros c [= ->].
    - by intros c [= ->].
    - congruence. }
  destruct (createConnection f name w) as [[f1 w1] out1] eqn:HC.
  apply createConnection_spec in HC as (Hcl & _ & _).
  destruct out1 as [conn|err|msg]; intros [= <- <- <-]; simpl; rewrite ?Hcl.
  - split_and!; try done.
    + intros n c Hn. destruct (decide (n = name)) as [->|Hne]; [congruence|].
      by rewrite lookup_insert_ne.
    + intros c [= ->]. apply lookup_insert_eq.
    + intros n Hne. by rewrite lookup_insert_ne.
    + by rewrite lookup_insert_eq.
  - split_and!; done.
  - split_and!; done.
Qed.




















(** *** One caller at a time *)

(** A caller that takes its two steps without another one in between
    makes the call [GetClient]. *)
Lemma GetClient_as_steps (sys : System) i name :
  callers sys !! i = Some (Calling name) →
  run [Run i; Run i] sys
  = match GetClient (factory sys) name (process sys) with
    | (f', w', out) =>
        {| factory := f'; process := w';
           callers := <[i := Done name out]> (callers sys) |}
    end.
Proof.
  intros Hi. pose proof (lookup_lt_Some _ _ _ Hi) as Hlt.
  unfold GetClient. simpl. rewrite Hi.
  destruct (clients (factory sys) !! name) as [conn|] eqn:Hcache; simpl.
  - by rewrite list_lookup_insert_eq.
  - rewrite list_lookup_insert_eq by done.
    destruct (create_locked _ _ _) as [[f' w'] out]. by rewrite list_insert_insert_eq.
Qed.

(** A second call for a name that a first call returned a connection for
    returns the same connection and changes nothing. *)
Lemma GetClient_again f name w f' w' conn :
  GetClient f name w = (f', w', Returned conn) →
  GetClient f' name w' = (f', w', Returned conn).
Proof.
  unfold GetClient. destruct (clients f !! name) as [c|] eqn:Hcache.
  - intros [= <- <- <-]. by rewrite Hcache.
  - intros E. apply create_locked_spec in E as (_ & Hret & _).
    by rewrite (Hret conn eq_refl).
Qed.

(** *** [Close] *)

Lemma close_one_errors w entry :
  errors_logged (logger (close_one w entry))
  = errors_logged (logger w)
    + match conn_Close (snd entry) w with (_, Some _) => 1 | (_, None) => 0 end.
Proof.
  unfold close_one.
  assert (logger (fst (conn_Close (snd entry) w)) = logger w) as Hlog.
  { unfold conn_Close. destruct (conns w !! snd entry) as [st|]; [|done].
    by destruct (grpc.is_open st). }
  destruct (conn_Close (snd entry) w) as [w' [err|]]; simpl in *.
  - by rewrite Hlog, errors_logged_snoc.
  - rewrite Hlog. lia.
Qed.

Lemma close_loop_logs order w :
  errors_logged (logger (fold_left close_one order w))
  = errors_logged (logger w) + close_failures order w.
Proof.
  revert w. induction order as [|entry rest IH]; intros w; simpl; [lia|].
  rewrite IH, close_one_errors.
  destruct (conn_Close (snd entry) w) as [w' [err|]]; lia.
Qed.

End FactoryFacts.

(** C2: with no Registry configured ([registry] is nil) and the name not
    cached, [GetClient] does not reach the branch that dials the literal
    target: the existence check calls [Discover] on the nil interface
    first, and the call panics through the public API. *)
Theorem GetClient_nil_registry_panics
    {R : Type} `{!discovery.Registry R}
    (cfg : client.GRPCClientConfig) (name : string) (w : client.Process) :
  client.GetClient (client.NewClientFactory (R := R) cfg None) name w
  = (client.NewClientFactory cfg None, w, Panicked client.nil_dereference).
Proof. reflexivity. Qed.

(** The same on any factory without registry, for any name it has not cached. *)
Lemma GetClient_nil_registry_miss
    {R : Type} `{!discovery.Registry R}
    (f : client.ClientFactory R) (name : string) (w : client.Process) :
  client.registry f = None → client.clients f !! name = None →
  client.GetClient f name w = (f, w, Panicked client.nil_dereference).
Proof.
  intros Hr Hc. unfold client.GetClient, client.create_locked, client.createConnection.
  by rewrite Hc, Hr.
Qed.

(** C4, as stated, fails for a name that is in the cache. After a client
    for "test-service" was created and its one instance was deregistered,
    [Discover] returns the empty list for the name, and [GetClient] still
    returns the cached connection: it makes no call at all. *)
Lemma GetClient_cached_without_instances :
  client.registry sample.after_deregistered
  = Some (fst (discovery.Deregister sample.test_service sample.test_registry))
  ∧ snd (discovery.Discover "test-service"
           (fst (discovery.Deregister sample.test_service sample.test_registry)))
    = inl []
  ∧ client.clients sample.after_deregistered !! "test-service" = Some 0
  ∧ client.GetClient sample.after_deregistered "test-service" (snd sample.after_first)
    = (sample.after_deregistered, snd sample.after_first, Returned 0).
Proof. vm_compute. split_and!; reflexivity. Qed.

(** C4, amended: for a name that is not in the cache and for which the
    [Discover] of the configured registry returns the empty list,
    [GetClient] returns the error "service <name> not found" and no
    connection; the cache is left as it was, without an entry for the
    name, and the one call made is that [Discover]: nothing is dialled.
    For a name that is in the cache, [GetClient] returns the cached
    connection and changes nothing, whatever [Discover] would return. *)
Theorem GetClient_not_found
    {R : Type} `{!discovery.Registry R}
    (f f' : client.ClientFactory R) (name : string) (w w' : client.Process)
    (r r' : R) (out : outcome grpc.ClientConn) :
  client.registry f = Some r →
  discovery.Discover name r = (r', inl []) →
  client.GetClient f name w = (f', w', out) →
  (client.clients f !! name = None →
     out = Failed ("service " +:+ name +:+ " not found")
     ∧ client.clients f' = client.clients f
     ∧ client.clients f' !! name = None
     ∧ client.conns w' = client.conns w
     ∧ client.calls_since w w' = [client.CallDiscover name (inl [])]
     ∧ Forall (fun c => client.is_dial c = false) (client.calls_since w w'))
  ∧ (∀ conn, client.clients f !! name = Some conn →
       out = Returned conn ∧ f' = f ∧ w' = w).
Proof.
  intros Hr HD. unfold client.GetClient, client.create_locked.
  destruct (client.clients f !! name) as [conn|] eqn:Hcache.
  { intros [= <- <- <-]. split; [done|]. by intros ? [= <-]. }
  unfold client.createConnection. rewrite Hr, HD. simpl.
  intros [= <- <- <-]. split; [|done]. intros _.
  rewrite (calls_since_app _ _ [client.CallDiscover name (inl [])]) by done.
  simpl. split_and!; try done. by repeat constructor.
Qed.

Lemma GetClient_not_found_witness :
  client.clients sample.empty_factory !! "non-existent-service" = None
  ∧ snd (client.GetClient sample.empty_factory "non-existent-service" sample.fresh_process)
    = Failed "service non-existent-service not found".
Proof.
  split; [reflexivity|].
  exact (proj1 (proj1 (GetClient_not_found sample.empty_factory _ "non-existent-service"
                         sample.fresh_process _ client.NewMockRegistry client.NewMockRegistry
                         _ eq_refl eq_refl eq_refl) eq_refl)).
Defined.



(** [Close], whatever the order of the range over the cache. *)
Lemma Close_in_total {R : Type} order (f : client.ClientFactory R) (w : client.Process) :
  client.clients (fst (fst (client.Close_in order f w))) = ∅
  ∧ snd (client.Close_in order f w) = None
  ∧ errors_logged (client.logger (snd (fst (client.Close_in order f w))))
    = errors_logged (client.logger w) + client.close_failures order w.
Proof. unfold client.Close_in. simpl. split_and!; try done. apply close_loop_logs. Qed.

(** C7: [DeregisterAll] leaves the RegisteredSet empty and returns nil,
    and [Close] leaves the cache empty and returns nil, in every state
    and whatever the backend or the connections answer; each failed
    [Deregister] or [conn.Close()] adds one error to the log and nothing
    else comes of it. *)
Theorem shutdown_is_total :
  (∀ (R : Type) (H : discovery.Registry R) (sm : discovery.ServiceManager R),
     discovery.services (fst (discovery.DeregisterAll sm)) = ∅
     ∧ snd (discovery.DeregisterAll sm) = None
     ∧ errors_logged (discovery.logger (fst (discovery.DeregisterAll sm)))
       = errors_logged (discovery.logger sm)
         + discovery.deregister_failures
             (snd <$> map_to_list (discovery.services sm)) (discovery.registry sm))
  ∧ (∀ (R : Type) (f : client.ClientFactory R) (w : client.Process),
       client.clients (fst (fst (client.Close f w))) = ∅
       ∧ snd (client.Close f w) = None
       ∧ errors_logged (client.logger (snd (fst (client.Close f w))))
         = errors_logged (client.logger w)
           + client.close_failures (map_to_list (client.clients f)) w).
Proof.
  split.
  - intros R H sm. apply DeregisterAll_in_total.
  - intros R f w. apply Close_in_total.
Qed.

(** Both deregistrations fail, both are logged, and the set is empty. *)
Example DeregisterAll_unreachable :
  @discovery.deregister_failures _ sample.etcd_registry
    (snd <$> map_to_list (discovery.services sample.unreachable_manager))
    (discovery.registry sample.unreachable_manager) = 2
  ∧ discovery.services
      (fst (@discovery.DeregisterAll _ sample.etcd_registry sample.unreachable_manager)) = ∅
  ∧ snd (@discovery.DeregisterAll _ sample.etcd_registry sample.unreachable_manager) = None
  ∧ errors_logged
      (discovery.logger
         (fst (@discovery.DeregisterAll _ sample.etcd_registry sample.unreachable_manager)))
    = 2.
Proof. vm_compute. split_and!; reflexivity. Qed.

(** C10, as stated, fails in its second half: a cache miss that does not
    pass the existence check registers nothing. After a client for
    "test-service" was created, [GetClient] for a name the registry does
    not know misses the cache and leaves the builder of "test-service"
    registered under "discovery". *)
Lemma cache_miss_without_registration :
  client.clients (fst sample.after_first) !! "non-existent-service" = None
  ∧ client.resolvers (snd sample.after_first) !! "discovery"
    = Some {| client.builder_serviceName := "test-service" |}
  ∧ client.resolvers
      (snd (fst (client.GetClient (fst sample.after_first) "non-existent-service"
                   (snd sample.after_first)))) !! "discovery"
    = Some {| client.builder_serviceName := "test-service" |}
  ∧ client.calls_since (snd sample.after_first)
      (snd (fst (client.GetClient (fst sample.after_first) "non-existent-service"
                   (snd sample.after_first))))
    = [client.CallDiscover "non-existent-service" (inl [])].
Proof. vm_compute. split_and!; reflexivity. Qed.

(** C10, amended: [Build] takes the service name from the builder and
    never from the target; and every [GetClient] cache miss that passes
    the existence check (a registry is configured and its [Discover]
    returns at least one instance) registers a new builder for its name
    under the one scheme "discovery", in place of whatever builder was
    registered there, whether or not the dial that follows succeeds. A
    cache miss that does not pass the check registers nothing: when
    [Discover] returns an error or the empty list the table of builders
    is left as it was and the one call made is that [Discover]; and so
    it is, with no call made, when no registry is configured. *)
Theorem resolver_builder_overwritten
    {R : Type} `{!discovery.Registry R}
    (f : client.ClientFactory R) (name : string) (w : client.Process) :
  client.clients f !! name = None →
  (∀ b target cc,
     client.start_watches (client.Build b target cc) = client.builder_serviceName b)
  ∧ (∀ b, client.Scheme b = "discovery")
  ∧ (∀ r r' services,
       client.registry f = Some r →
       discovery.Discover name r = (r', inl services) →
       services ≠ [] →
       client.resolvers (snd (fst (client.GetClient f name w)))
       = <["discovery" := {| client.builder_serviceName := name |}]> (client.resolvers w)
       ∧ (∀ target cc b,
            client.resolvers (snd (fst (client.GetClient f name w))) !! "discovery"
            = Some b →
            client.start_watches (client.Build b target cc) = name))
  ∧ (∀ r r' res,
       client.registry f = Some r →
       discovery.Discover name r = (r', res) →
       res = inl [] ∨ (∃ err, res = inr err) →
       client.resolvers (snd (fst (client.GetClient f name w))) = client.resolvers w
       ∧ client.calls_since w (snd (fst (client.GetClient f name w)))
         = [client.CallDiscover name res])
  ∧ (client.registry f = None →
       client.resolvers (snd (fst (client.GetClient f name w))) = client.resolvers w
       ∧ client.calls_since w (snd (fst (client.GetClient f name w))) = []).
Proof.
  intros Hmiss. split_and!; try done.
  - intros r r' services Hr HD Hne.
    assert (client.resolvers (snd (fst (client.GetClient f name w)))
            = <["discovery" := {| client.builder_serviceName := name |}]>
                (client.resolvers w))
      as Hres.
    { unfold client.GetClient, client.create_locked, client.createConnection.
      rewrite Hmiss, Hr, HD. rewrite bool_decide_eq_false_2 by by destruct services.
      simpl.
      destruct (client.DialContext _ _ _) as [w1 [conn|err]] eqn:E;
        apply DialContext_frame in E as (_ & Hrs & _); simpl in *; by rewrite Hrs. }
    split; [done|].
    intros target cc b. rewrite Hres, lookup_insert_eq. by intros [= <-].
  - intros r r' res Hr HD Hres.
    unfold client.GetClient, client.create_locked, client.createConnection.
    rewrite Hmiss, Hr, HD.
    destruct Hres as [->|[err ->]]; simpl; (split; [done|]);
      by apply calls_since_app.
  - intros Hr.
    unfold client.GetClient, client.create_locked, client.createConnection.
    rewrite Hmiss, Hr. simpl. split; [done|].
    unfold client.calls_since. by rewrite drop_all.
Qed.

Lemma resolver_builder_overwritten_witness :
  (client.clients sample.test_factory !! "test-service" = None
   ∧ client.resolvers
       (snd (fst (client.GetClient sample.test_factory "test-service"
                    sample.fresh_process)))
     = <["discovery" := {| client.builder_serviceName := "test-service" |}]> ∅)
  ∧ (client.clients (fst sample.after_first) !! "non-existent-service" = None
     ∧ client.resolvers
         (snd (fst (client.GetClient (fst sample.after_first) "non-existent-service"
                      (snd sample.after_first))))
       = client.resolvers (snd sample.after_first)).
Proof.
  split; (split; [reflexivity|]).
  - exact (proj1 (proj1 (proj2 (proj2
      (resolver_builder_overwritten sample.test_factory "test-service"
         sample.fresh_process eq_refl)))
      sample.test_registry sample.test_registry [sample.test_service]
      eq_refl eq_refl ltac:(discriminate))).
  - exact (proj1 (proj1 (proj2 (proj2 (proj2
      (resolver_builder_overwritten (fst sample.after_first) "non-existent-service"
         (snd sample.after_first) eq_refl))))
      sample.test_registry sample.test_registry (inl [])
      eq_refl eq_refl (or_introl eq_refl))).
Defined.

(** * Further properties of the code *)

(** ** The lease-store registry against its cluster *)

Section EtcdFacts.

Import clientv3 discovery discovery.EtcdRegistry.

Context (json_Marshal : ServiceInfo → result string).
Context (json_Unmarshal : string → result ServiceInfo).

Lemma warnings_logged_snoc l e :
  warnings_logged (l ++ [e])
  = warnings_logged l + (if decide (level e = WarnLevel) then 1 else 0).
Proof.
  unfold warnings_logged. rewrite filter_app, length_app. f_equal.
  rewrite filter_cons, filter_nil. by case_decide.
Qed.

Lemma decodable_undecodable kvs :
  length (decodable json_Unmarshal kvs) + length (undecodable json_Unmarshal kvs)
  = length kvs.
Proof.
  unfold decodable, undecodable. induction kvs as [|[k v] kvs IH]; [done|].
  destruct (json_Unmarshal v) eqn:E.
  - rewrite filter_cons_False by (simpl; rewrite E; intros H; by apply H).
    simpl. rewrite E. simpl. f_equal. exact IH.
  - rewrite filter_cons_True by (simpl; by rewrite E).
    simpl. rewrite E. simpl. rewrite Nat.add_succ_r. f_equal. exact IH.
Qed.

Lemma undecodable_cons k v kvs :
  length (undecodable json_Unmarshal ((k, v) :: kvs))
  = (match json_Unmarshal v with inl _ => 0 | inr _ => 1 end)
    + length (undecodable json_Unmarshal kvs).
Proof.
  unfold undecodable. destruct (json_Unmarshal v) eqn:E.
  - by rewrite filter_cons_False by (simpl; rewrite E; intros H; by apply H).
  - by rewrite filter_cons_True by (simpl; by rewrite E).
Qed.

(** The loop of [Discover]: the records it returns, what it leaves
    alone, and one warning for each value that does not decode. *)
Lemma decode_spec kvs acc s :
  ∃ s', decode json_Unmarshal kvs acc s = (s', inl (acc ++ decodable json_Unmarshal kvs))
    ∧ self s' = self s ∧ cluster s' = cluster s
    ∧ warnings_logged (logger s')
      = warnings_logged (logger s) + length (undecodable json_Unmarshal kvs)
    ∧ errors_logged (logger s') = errors_logged (logger s).
Proof.
  revert acc s. induction kvs as [|[k v] kvs IH]; intros acc s.
  { exists s. simpl. unfold ret. rewrite app_nil_r. split_and!; try done;
      unfold undecodable; rewrite filter_nil; simpl; lia. }
  rewrite undecodable_cons. simpl. unfold decodable. simpl.
  destruct (json_Unmarshal v) as [service|err]; simpl.
  - destruct (IH (acc ++ [service]) s) as (s' & -> & ? & ? & Hw & ?).
    exists s'. rewrite <- app_assoc. by split_and!.
  - unfold bind, log, modify. simpl.
    match goal with |- context [decode _ kvs acc ?s0] =>
      destruct (IH acc s0) as (s' & -> & Hs & Hc & Hw & He) end.
    exists s'. simpl in *. split_and!; try done.
    + rewrite Hw, warnings_logged_snoc. simpl. lia.
    + rewrite He, errors_logged_snoc. done.
Qed.

(** [Discover] when its call reaches the server. *)
Lemma Discover_spec name s :
  faults (cluster s) = [] →
  ∃ s', Discover json_Unmarshal name s
        = (s', inl (decodable json_Unmarshal (entries (self s) (cluster s) name)))
    ∧ self s' = self s ∧ cluster s' = cluster s
    ∧ warnings_logged (logger s')
      = warnings_logged (logger s)
        + length (undecodable json_Unmarshal (entries (self s) (cluster s) name))
    ∧ errors_logged (logger s') = errors_logged (logger s).
Proof.
  intros Hf. unfold Discover, bind, wrap, gets, client, Get_WithPrefix, rpc.
  simpl. rewrite Hf. simpl.
  match goal with |- context [decode _ ?kvs [] ?s0] =>
    destruct (decode_spec kvs [] s0) as (s' & -> & Hs & Hc & Hw & He) end.
  exists s'. simpl in *. split_and!; try done; by destruct s.
Qed.

(** [Deregister] when its calls reach the server: it returns nil
    whatever the stored lease is; a live stored lease is revoked, a
    stored lease that is gone gives a warning; the key is deleted. *)
Lemma Deregister_spec service s :
  faults (cluster s) = [] →
  ∃ s', Deregister service s = (s', inl tt)
    ∧ self s' = self s
    ∧ faults (cluster s') = []
    ∧ next_lease (cluster s') = next_lease (cluster s)
    ∧ kvs (cluster s')
      = delete (key_of s service)
          (if decide (leaseID (self s) ≠ 0%Z ∧ leaseID (self s) ∈ leases (cluster s))
           then filter (fun kv => snd (snd kv) ≠ leaseID (self s)) (kvs (cluster s))
           else kvs (cluster s))
    ∧ leases (cluster s')
      = (if decide (leaseID (self s) ≠ 0%Z ∧ leaseID (self s) ∈ leases (cluster s))
         then leases (cluster s) ∖ {[leaseID (self s)]}
         else leases (cluster s))
    ∧ warnings_logged (logger s')
      = warnings_logged (logger s)
        + (if decide (leaseID (self s) ≠ 0%Z ∧ leaseID (self s) ∉ leases (cluster s))
           then 1 else 0).
Proof.
  clear json_Marshal json_Unmarshal. intros Hf.
  assert (∀ c : Cluster, faults c = [] → ∀ A (op : M Cluster A), rpc op c = op c) as Hrpc.
  { intros c Hc A op. unfold rpc. by rewrite Hc. }
  unfold Deregister, bind, wrap, gets, client, attempt, modify, log, ret, Revoke, Delete.
  simpl.
  destruct (decide (leaseID (self s) ≠ 0%Z)) as [Hz|Hz]; simpl.
  - rewrite Hrpc by done.
    destruct (decide (leaseID (self s) ∈ leases (cluster s))) as [Hl|Hl]; simpl.
    + rewrite Hrpc by done. simpl. eexists. split; [reflexivity|]. simpl.
      rewrite !(decide_True (P := _ ∧ _ ∈ _)) by done.
      rewrite (decide_False (P := _ ∧ _ ∉ _)) by tauto.
      split_and!; try done; try (by destruct s);
        rewrite ?warnings_logged_snoc; simpl; lia.
    + rewrite Hrpc by done. simpl. eexists. split; [reflexivity|]. simpl.
      rewrite !(decide_False (P := _ ∧ _ ∈ _)) by tauto.
      rewrite (decide_True (P := _ ∧ _ ∉ _)) by done.
      split_and!; try done; try (by destruct s);
        rewrite ?warnings_logged_snoc; simpl; lia.
  - rewrite Hrpc by done. simpl. eexists. split; [reflexivity|]. simpl.
    rewrite !(decide_False (P := _ ∧ _ ∈ _)) by tauto.
    rewrite (decide_False (P := _ ∧ _ ∉ _)) by tauto.
    split_and!; try done; try (by destruct s);
      rewrite ?warnings_logged_snoc; simpl; lia.
Qed.

End EtcdFacts.

(** X1: every entry under the prefix of the name is accounted for by
    [Discover]: it returns one record for each value that decodes, in
    the order of the store, and logs one warning for each value that
    does not; a value that does not decode is never an error. *)
Theorem etcd_Discover_accounts_for_every_entry
    (json_Unmarshal : string → result discovery.ServiceInfo)
    (name : string) (s : discovery.EtcdRegistry.Env) :
  clientv3.faults (discovery.EtcdRegistry.cluster s) = [] →
  ∃ s' services,
    discovery.EtcdRegistry.Discover json_Unmarshal name s = (s', inl services)
    ∧ services
      = discovery.EtcdRegistry.decodable json_Unmarshal
          (discovery.EtcdRegistry.entries (discovery.EtcdRegistry.self s)
             (discovery.EtcdRegistry.cluster s) name)
    ∧ length services
      + (warnings_logged (discovery.EtcdRegistry.logger s')
         - warnings_logged (discovery.EtcdRegistry.logger s))
      = length (discovery.EtcdRegistry.entries (discovery.EtcdRegistry.self s)
                  (discovery.EtcdRegistry.cluster s) name)
    ∧ discovery.EtcdRegistry.cluster s' = discovery.EtcdRegistry.cluster s.
Proof.
  intros Hf. destruct (Discover_spec json_Unmarshal name s Hf) as (s' & E & _ & Hc & Hw & _).
  eexists s', _. split_and!; [exact E|done| |done].
  pose proof (decodable_undecodable json_Unmarshal
                (discovery.EtcdRegistry.entries (discovery.EtcdRegistry.self s)
                   (discovery.EtcdRegistry.cluster s) name)) as Hd.
  rewrite Hw. lia.
Qed.

Lemma etcd_Discover_accounts_for_every_entry_witness :
  clientv3.faults (discovery.EtcdRegistry.cluster (sample.etcd_env sample.mixed_cluster)) = []
  ∧ ∃ s' services,
      discovery.EtcdRegistry.Discover sample.unmarshal "greeter"
        (sample.etcd_env sample.mixed_cluster) = (s', inl services)
      ∧ length services = 1
      ∧ warnings_logged (discovery.EtcdRegistry.logger s') = 1.
Proof.
  split; [reflexivity|].
  destruct (etcd_Discover_accounts_for_every_entry sample.unmarshal "greeter"
              (sample.etcd_env sample.mixed_cluster) eq_refl)
    as (s' & services & E & -> & _ & _).
  eexists s', _. split; [exact E|].
  vm_compute in E. injection E as <-. split; vm_compute; reflexivity.
Defined.

Section EtcdRoundTrips.

Import clientv3 discovery discovery.EtcdRegistry.

Context (json_Marshal : ServiceInfo → result string).
Context (json_Unmarshal : string → result ServiceInfo).

Lemma cluster_eq (c c' : Cluster) :
  kvs c = kvs c' → leases c = leases c' → next_lease c = next_lease c' →
  faults c = faults c' → c = c'.
Proof. destruct c, c'. simpl. by intros -> -> -> ->. Qed.

Lemma key_of_self s s' service : self s' = self s → key_of s' service = key_of s service.
Proof. unfold key_of. by intros ->. Qed.

(** X2: [Deregister] is idempotent. When its calls reach the server it
    returns nil whether or not the record or the stored lease is still
    there, the key of the record is absent afterwards, and a second
    [Deregister] of the same record returns nil and leaves the cluster
    as the first one left it. *)
Theorem etcd_Deregister_idempotent (service : ServiceInfo) (s : Env) :
  faults (cluster s) = [] →
  ∃ s1 s2,
    Deregister service s = (s1, inl tt)
    ∧ kvs (cluster s1) !! key_of s service = None
    ∧ Deregister service s1 = (s2, inl tt)
    ∧ cluster s2 = cluster s1.
Proof.
  clear json_Marshal json_Unmarshal.
  intros Hf.
  destruct (Deregister_spec service s Hf) as (s1 & D1 & Hs1 & Hf1 & Hn1 & Hk1 & Hl1 & _).
  destruct (Deregister_spec service s1 Hf1) as (s2 & D2 & Hs2 & Hf2 & Hn2 & Hk2 & Hl2 & _).
  assert (kvs (cluster s1) !! key_of s service = None) as Habs
    by (rewrite Hk1; apply lookup_delete_eq).
  assert (leaseID (self s1) ≠ 0%Z → leaseID (self s1) ∉ leases (cluster s1)) as Hgone.
  { rewrite Hs1, Hl1. intros Hz Hin.
    destruct (decide (leaseID (self s) ≠ 0%Z ∧ leaseID (self s) ∈ leases (cluster s)))
      as [Hd|Hd].
    - apply elem_of_difference in Hin as [_ Hnot]. apply Hnot. by apply elem_of_singleton.
    - tauto. }
  exists s1, s2. split_and!; [done..|].
  destruct (decide (leaseID (self s1) ≠ 0%Z ∧ leaseID (self s1) ∈ leases (cluster s1)))
    as [[Hz Hin]|_]; [by destruct (Hgone Hz)|].
  rewrite (key_of_self s s1) in Hk2 by done. rewrite delete_id in Hk2 by done.
  apply cluster_eq; congruence.
Qed.

(** X3: the round trip of the package's integration test. On a registry
    with a clean namespace, for a record whose name is one path element
    and whose address has no slash, and with a JSON encoding that
    decodes what it encoded: after a [Register] that meets no failure,
    [Discover] of the record's name returns a list that contains the
    record. *)
Theorem etcd_Register_then_Discover (r : ServiceInfo) (data : string) (s : Env) :
  faults (cluster s) = [] →
  path.is_clean (namespace (self s)) = true →
  path.real_elem (Name r) = true →
  Str.no_slash (Address r) = true →
  json_Marshal r = inl data →
  json_Unmarshal data = inl r →
  ∃ s1 s2 services,
    Register json_Marshal r s = (s1, inl tt)
    ∧ Discover json_Unmarshal (Name r) s1 = (s2, inl services)
    ∧ r ∈ services.
Proof.
  intros Hf Hns Hn Ha Hm Hu.
  destruct (Register_ok json_Marshal r data s Hf Hm)
    as (s1 & R & Hl & Hns1 & Hf1 & _ & _ & Hkv).
  destruct (Discover_spec json_Unmarshal (Name r) s1 Hf1) as (s2 & D & _).
  eexists s1, s2, _. split_and!; [exact R|exact D|].
  unfold decodable. apply list_elem_of_omap.
  exists (key_of s r, data). split; [|simpl; by rewrite Hu].
  unfold entries. apply list_elem_of_fmap.
  exists (key_of s r, (data, Zpos (next_lease (cluster s)))). split; [done|].
  apply list_elem_of_filter. split.
  - simpl. unfold key_of, buildServicePrefix, buildServiceKey. rewrite Hns1.
    pose proof (buildServiceKey_clean _ (Name r) (Address r) (Port r) Hns Hn Ha) as Ek.
    pose proof (buildServicePrefix_clean _ (Name r) Hns Hn) as Ep.
    unfold buildServiceKey, buildServicePrefix in Ek, Ep. simpl in Ek, Ep.
    rewrite Ek, Ep. unfold spec_key, spec_prefix.
    rewrite <- !append_assoc. rewrite !append_assoc.
    replace (namespace (self s) +:+ "/services/" +:+ Name r +:+ "/" +:+ Address r
             +:+ ":" +:+ pretty (Port r))
      with ((namespace (self s) +:+ "/services/" +:+ Name r +:+ "/")
            +:+ (Address r +:+ ":" +:+ pretty (Port r)))
      by (by rewrite !append_assoc).
    apply prefix_app.
  - apply elem_of_map_to_list. rewrite Hkv. apply lookup_insert_eq.
Qed.

(** X4: [Register] followed by [Deregister] of the same record, no call
    failing, puts the key space and the leases back as they were, when
    the key was free and nothing in the cluster refers to the lease the
    server grants; every [Discover] then returns what it returned
    before. *)
Theorem etcd_Register_Deregister_restores (r : ServiceInfo) (data : string) (s : Env) :
  faults (cluster s) = [] →
  json_Marshal r = inl data →
  kvs (cluster s) !! key_of s r = None →
  (∀ k v l, kvs (cluster s) !! k = Some (v, l) → l ≠ Zpos (next_lease (cluster s))) →
  Zpos (next_lease (cluster s)) ∉ leases (cluster s) →
  ∃ s1 s2,
    Register json_Marshal r s = (s1, inl tt)
    ∧ Deregister r s1 = (s2, inl tt)
    ∧ kvs (cluster s2) = kvs (cluster s)
    ∧ leases (cluster s2) = leases (cluster s)
    ∧ ∀ name, snd (Discover json_Unmarshal name s2) = snd (Discover json_Unmarshal name s).
Proof.
  intros Hf Hm Hfree Hfresh Hnew.
  destruct (Register_ok json_Marshal r data s Hf Hm)
    as (s1 & R & Hl & Hns1 & Hf1 & _ & Hls & Hkv).
  destruct (Deregister_spec r s1 Hf1) as (s2 & D & Hs2 & Hf2 & _ & Hk2 & Hl2 & _).
  assert (leaseID (self s1) ≠ 0%Z ∧ leaseID (self s1) ∈ leases (cluster s1)) as Hlive.
  { rewrite Hl, Hls. split; [done|]. apply elem_of_union_l. by apply elem_of_singleton. }
  destruct (decide (leaseID (self s1) ≠ 0%Z ∧ leaseID (self s1) ∈ leases (cluster s1)))
    as [_|Hnot]; [|done].
  assert (key_of s1 r = key_of s r) as Hkey.
  { unfold key_of, buildServiceKey. by rewrite Hns1. }
  assert (kvs (cluster s2) = kvs (cluster s)) as Hkvs.
  { rewrite Hk2, Hkv, Hl, Hkey.
    rewrite map_filter_insert_False by (simpl; intros H; by apply H).
    rewrite (delete_id (kvs (cluster s))) by done.
    rewrite map_filter_id; [by apply delete_id|].
    intros k [v l] Hk. simpl. by eapply Hfresh. }
  assert (leases (cluster s2) = leases (cluster s)) as Hleases.
  { rewrite Hl2, Hls, Hl. apply set_eq. intros x. split.
    - intros [Hx Hnx]%elem_of_difference. by apply elem_of_union in Hx as [Hx|Hx].
    - intros Hx. apply elem_of_difference. split; [by apply elem_of_union_r|].
      intros ->%elem_of_singleton. done. }
  exists s1, s2. split_and!; [done..|].
  intros name.
  destruct (Discover_spec json_Unmarshal name s2 Hf2) as (? & -> & _).
  destruct (Discover_spec json_Unmarshal name s Hf) as (? & -> & _).
  simpl. unfold entries, buildServicePrefix. by rewrite Hkvs, Hs2, Hns1.
Qed.

(** X5: a [Register] whose grant fails returns
    "failed to grant lease: <err>" and changes neither the registry
    struct nor the keys and leases of the cluster, and logs nothing. *)
Theorem etcd_Register_grant_failure (r : ServiceInfo) (err : error)
    (fs : list (option error)) (s : Env) :
  faults (cluster s) = Some err :: fs →
  ∃ s', Register json_Marshal r s = (s', inr ("failed to grant lease: " +:+ err))
    ∧ self s' = self s ∧ logger s' = logger s
    ∧ kvs (cluster s') = kvs (cluster s) ∧ leases (cluster s') = leases (cluster s)
    ∧ next_lease (cluster s') = next_lease (cluster s)
    ∧ faults (cluster s') = fs.
Proof.
  intros Hf. eexists.
  unfold Register, bind, wrap, gets, client, Grant, rpc. simpl. rewrite Hf. simpl.
  split; [reflexivity|]. simpl. split_and!; try done; by destruct s.
Qed.

(** X6: a [Register] whose grant succeeds and whose put fails returns
    "failed to register service: <err>"; no key is written, but the lease
    just granted is live and has already replaced the stored lease, so
    the next [Deregister] revokes it and not the lease stored before. *)
Theorem etcd_Register_put_failure (r : ServiceInfo) (data : string) (err : error)
    (fs : list (option error)) (s : Env) :
  faults (cluster s) = None :: Some err :: fs →
  json_Marshal r = inl data →
  ∃ s', Register json_Marshal r s = (s', inr ("failed to register service: " +:+ err))
    ∧ leaseID (self s') = Zpos (next_lease (cluster s))
    ∧ (Zpos (next_lease (cluster s)) ∈ leases (cluster s'))
    ∧ kvs (cluster s') = kvs (cluster s)
    ∧ faults (cluster s') = fs.
Proof.
  intros Hf Hm. eexists.
  unfold Register, bind, wrap, gets, client, store_leaseID, modify, Grant, Put, rpc.
  simpl. rewrite Hf. simpl. rewrite Hm. simpl.
  split; [reflexivity|]. simpl. split_and!; try done.
  apply elem_of_union_l. by apply elem_of_singleton.
Qed.

End EtcdRoundTrips.

Lemma etcd_Deregister_idempotent_witness :
  clientv3.faults (discovery.EtcdRegistry.cluster (sample.etcd_env sample.greeter_cluster)) = []
  ∧ ∃ s1 s2,
      discovery.EtcdRegistry.Deregister sample.greeter
        (sample.etcd_env sample.greeter_cluster) = (s1, inl tt)
      ∧ (clientv3.kvs (discovery.EtcdRegistry.cluster s1))
          !! (discovery.EtcdRegistry.key_of (sample.etcd_env sample.greeter_cluster)
                sample.greeter) = None
      ∧ discovery.EtcdRegistry.Deregister sample.greeter s1 = (s2, inl tt)
      ∧ discovery.EtcdRegistry.cluster s2 = discovery.EtcdRegistry.cluster s1.
Proof.
  split; [reflexivity|].
  exact (etcd_Deregister_idempotent sample.greeter
           (sample.etcd_env sample.greeter_cluster) eq_refl).
Defined.

Lemma etcd_Register_then_Discover_witness :
  clientv3.faults (discovery.EtcdRegistry.cluster (sample.etcd_env sample.empty_cluster)) = []
  ∧ path.is_clean "/grpc-kit" = true
  ∧ path.real_elem (discovery.Name sample.greeter) = true
  ∧ Str.no_slash (discovery.Address sample.greeter) = true
  ∧ sample.marshal sample.greeter = inl "greeter"
  ∧ sample.unmarshal "greeter" = inl sample.greeter
  ∧ ∃ s1 s2 services,
      discovery.EtcdRegistry.Register sample.marshal sample.greeter
        (sample.etcd_env sample.empty_cluster) = (s1, inl tt)
      ∧ discovery.EtcdRegistry.Discover sample.unmarshal "greeter" s1 = (s2, inl services)
      ∧ sample.greeter ∈ services.
Proof.
  split_and!; [reflexivity..|].
  exact (etcd_Register_then_Discover sample.marshal sample.unmarshal sample.greeter
           "greeter" (sample.etcd_env sample.empty_cluster)
           eq_refl eq_refl eq_refl eq_refl eq_refl eq_refl).
Defined.

Lemma etcd_Register_Deregister_restores_witness :
  ∃ s1 s2,
    discovery.EtcdRegistry.Register sample.marshal sample.greeter
      (sample.etcd_env sample.empty_cluster) = (s1, inl tt)
    ∧ discovery.EtcdRegistry.Deregister sample.greeter s1 = (s2, inl tt)
    ∧ clientv3.kvs (discovery.EtcdRegistry.cluster s2) = ∅
    ∧ clientv3.leases (discovery.EtcdRegistry.cluster s2) = ∅
    ∧ ∀ name,
        snd (discovery.EtcdRegistry.Discover sample.unmarshal name s2)
        = snd (discovery.EtcdRegistry.Discover sample.unmarshal name
                 (sample.etcd_env sample.empty_cluster)).
Proof.
  refine (etcd_Register_Deregister_restores sample.marshal sample.unmarshal sample.greeter
            "greeter" (sample.etcd_env sample.empty_cluster) eq_refl eq_refl eq_refl _ _).
  - intros k v l. simpl. rewrite lookup_empty. discriminate.
  - simpl. apply not_elem_of_empty.
Defined.

Lemma etcd_Register_grant_failure_witness :
  clientv3.faults (discovery.EtcdRegistry.cluster (sample.etcd_env sample.failing_cluster))
  = [Some "context deadline exceeded"]
  ∧ ∃ s',
      discovery.EtcdRegistry.Register sample.marshal sample.greeter
        (sample.etcd_env sample.failing_cluster)
      = (s', inr "failed to grant lease: context deadline exceeded")
      ∧ discovery.EtcdRegistry.self s'
        = discovery.EtcdRegistry.self (sample.etcd_env sample.failing_cluster).
Proof.
  split; [reflexivity|].
  destruct (etcd_Register_grant_failure sample.marshal sample.greeter
              "context deadline exceeded" [] (sample.etcd_env sample.failing_cluster) eq_refl)
    as (s' & R & Hs & _).
  by exists s'.
Defined.

Lemma etcd_Register_put_failure_witness :
  clientv3.faults
    (discovery.EtcdRegistry.cluster (sample.etcd_env sample.failing_put_cluster))
  = [None; Some "context deadline exceeded"]
  ∧ sample.marshal sample.greeter = inl "greeter"
  ∧ ∃ s',
      discovery.EtcdRegistry.Register sample.marshal sample.greeter
        (sample.etcd_env sample.failing_put_cluster)
      = (s', inr "failed to register service: context deadline exceeded")
      ∧ discovery.EtcdRegistry.leaseID (discovery.EtcdRegistry.self s') = 1%Z
      ∧ clientv3.kvs (discovery.EtcdRegistry.cluster s') = ∅.
Proof.
  split_and!; [reflexivity..|].
  destruct (etcd_Register_put_failure sample.marshal sample.greeter "greeter"
              "context deadline exceeded" [] (sample.etcd_env sample.failing_put_cluster)
              eq_refl eq_refl)
    as (s' & R & Hl & _ & Hk & _).
  by exists s'.
Defined.

(** ** Watch streams, further *)

Section WatchOrder.

Import discovery.

Context (json_Unmarshal : string → result ServiceInfo).

Lemma etcd_watch_loop_delivers name resp rest s s1 services :
  EtcdRegistry.Err resp = None →
  EtcdRegistry.Discover json_Unmarshal name
    (EtcdRegistry.set_cluster (EtcdRegistry.cluster_then resp) s) = (s1, inl services) →
  EtcdRegistry.ctx_done resp = false →
  EtcdRegistry.watch_loop json_Unmarshal name (EtcdRegistry.Response resp :: rest) s
  = match EtcdRegistry.watch_loop json_Unmarshal name rest s1 with
    | (s2, st) => (s2, send services st)
    end.
Proof. intros He HD Hd. simpl. by rewrite He, HD, Hd. Qed.

Lemma etcd_watch_loop_in_order name resps s :
  Forall (fun resp => EtcdRegistry.Err resp = None ∧ EtcdRegistry.ctx_done resp = false
                      ∧ clientv3.faults (EtcdRegistry.cluster_then resp) = []) resps →
  ∃ s' st,
    EtcdRegistry.watch_loop json_Unmarshal name (EtcdRegistry.Response <$> resps) s = (s', st)
    ∧ EtcdRegistry.self s' = EtcdRegistry.self s
    ∧ delivered st
      = (fun resp => EtcdRegistry.decodable json_Unmarshal
                       (EtcdRegistry.entries (EtcdRegistry.self s)
                          (EtcdRegistry.cluster_then resp) name)) <$> resps
    ∧ closed st = false.
Proof.
  intros Hall. revert s. induction Hall as [|resp resps (He & Hd & Hf) _ IH]; intros s.
  { by exists s, still_open. }
  destruct (Discover_spec json_Unmarshal name
              (EtcdRegistry.set_cluster (EtcdRegistry.cluster_then resp) s) Hf)
    as (s1 & HD & Hs1 & _).
  destruct (IH s1) as (s2 & st & E & Hs2 & Hdel & Hcl).
  rewrite fmap_cons, (etcd_watch_loop_delivers _ _ _ _ _ _ He HD Hd), E.
  eexists s2, (send _ st). simpl in *. split_and!; try done.
  - congruence.
  - rewrite Hdel, Hs1. done.
Qed.

(** X7: while no response carries an error, the caller does not cancel
    and the reads reach the server, the lease-store watch delivers the
    list read on subscribing and then, for each notification and in the
    order of the notifications, the list read at that notification; the
    stream stays open. *)
Theorem etcd_watch_delivers_in_order
    (name : string) (resps : list EtcdRegistry.WatchResponse) (s : EtcdRegistry.Env) :
  clientv3.faults (EtcdRegistry.cluster s) = [] →
  Forall (fun resp => EtcdRegistry.Err resp = None ∧ EtcdRegistry.ctx_done resp = false
                      ∧ clientv3.faults (EtcdRegistry.cluster_then resp) = []) resps →
  ∃ s' st,
    EtcdRegistry.Watch json_Unmarshal name (EtcdRegistry.Response <$> resps) s = (s', inl st)
    ∧ delivered st
      = EtcdRegistry.decodable json_Unmarshal
          (EtcdRegistry.entries (EtcdRegistry.self s) (EtcdRegistry.cluster s) name)
        :: ((fun resp => EtcdRegistry.decodable json_Unmarshal
                           (EtcdRegistry.entries (EtcdRegistry.self s)
                              (EtcdRegistry.cluster_then resp) name)) <$> resps)
    ∧ closed st = false.
Proof.
  intros Hf Hall. unfold EtcdRegistry.Watch, bind.
  destruct (Discover_spec json_Unmarshal name s Hf) as (s1 & -> & Hs1 & _).
  destruct (etcd_watch_loop_in_order name resps s1 Hall) as (s2 & st & -> & _ & Hdel & Hcl).
  eexists s2, (send _ st). simpl. split_and!; try done. by rewrite Hdel, Hs1.
Qed.

(** X8: the goroutine of the lease-store watch closes the stream only
    when the watch channel is closed, when a response carries an error,
    or when its [select] takes [ctx.Done()]; a failed re-read of the
    list never closes it. *)
Theorem etcd_stream_closes_only_on
    (name : string) (inputs : list EtcdRegistry.Notification)
    (s s' : EtcdRegistry.Env) (st : Stream) :
  EtcdRegistry.watch_loop json_Unmarshal name inputs s = (s', st) →
  closed st = true →
  Exists (fun input =>
            match input with
            | EtcdRegistry.ChannelClosed => True
            | EtcdRegistry.Response resp =>
                EtcdRegistry.Err resp ≠ None ∨ EtcdRegistry.ctx_done resp = true
            end) inputs.
Proof.
  revert s s' st. induction inputs as [|input rest IH]; intros s s' st; simpl.
  { intros [= <- <-]. discriminate. }
  destruct input as [resp|]; [|intros _ _; by left].
  destruct (EtcdRegistry.Err resp) as [err|] eqn:He.
  { intros _ _. left. left. by rewrite He. }
  destruct (EtcdRegistry.Discover _ _ _) as [s1 [services|err]].
  - destruct (EtcdRegistry.ctx_done resp) eqn:Hd.
    { intros _ _. left. by right. }
    destruct (EtcdRegistry.watch_loop json_Unmarshal name rest s1) as [s2 st2] eqn:E.
    intros [= <- <-] Hc. right. by eapply IH.
  - intros E Hc. right. by eapply IH.
Qed.

End WatchOrder.

Section ConsulWatch.

Import discovery.

Lemma consul_client_frame {A} (call : M api.Agent A) a s s1 res :
  ConsulRegistry.client call (ConsulRegistry.set_agent a s) = (s1, res) →
  ConsulRegistry.logger s1 = ConsulRegistry.logger s
  ∧ ConsulRegistry.slept s1 = ConsulRegistry.slept s.
Proof.
  unfold ConsulRegistry.client. simpl. destruct (call a) as [a' r].
  by intros [= <- <-].
Qed.

(** X9: the goroutine of the catalog watch closes the stream only at one
    of its two [select]s on [ctx.Done()]: if the stream is closed, the
    caller's cancellation was seen in some turn of the loop. *)
Theorem consul_stream_closes_only_on_cancel
    (name : string) (inputs : list ConsulRegistry.Poll) (lastIndex : N)
    (s s' : ConsulRegistry.Env) (st : Stream) :
  ConsulRegistry.watch_loop name inputs lastIndex s = (s', st) →
  closed st = true →
  Exists (fun p => ConsulRegistry.done_at_top p = true
                   ∨ ConsulRegistry.done_at_send p = true) inputs.
Proof.
  intros E Hc. apply Exists_exists.
  destruct (consul_closed_only_on_cancel _ _ _ _ _ _ E Hc) as (p & Hp & Hd). by exists p.
Qed.

(** X10: while the caller does not cancel, every turn of the catalog
    loop either delivers one snapshot or logs one error and sleeps five
    seconds; the stream stays open. *)
Theorem consul_watch_turns_accounted
    (name : string) (inputs : list ConsulRegistry.Poll) (lastIndex : N)
    (s : ConsulRegistry.Env) :
  Forall (fun p => ConsulRegistry.done_at_top p = false
                   ∧ ConsulRegistry.done_at_send p = false) inputs →
  ∃ s' st k,
    ConsulRegistry.watch_loop name inputs lastIndex s = (s', st)
    ∧ closed st = false
    ∧ length (delivered st) + k = length inputs
    ∧ errors_logged (ConsulRegistry.logger s') = errors_logged (ConsulRegistry.logger s) + k
    ∧ ConsulRegistry.slept s' = ConsulRegistry.slept s ++ replicate k 5%Z.
Proof.
  intros Hall. revert lastIndex s.
  induction Hall as [|p rest [Htop Hsend] _ IH]; intros lastIndex s.
  { exists s, still_open, 0. simpl. rewrite app_nil_r. split_and!; try done; lia. }
  simpl. rewrite Htop.
  destruct (ConsulRegistry.client _ _) as [s1 [[services idx]|err]] eqn:Hq;
    apply consul_client_frame in Hq as [Hlog Hsl].
  - rewrite Hsend. destruct (IH idx s1) as (s2 & st & k & -> & Hcl & Hlen & Herr & Hslept).
    eexists s2, (send _ st), k. simpl. split_and!; try done.
    + lia.
    + by rewrite Herr, Hlog.
    + by rewrite Hslept, Hsl.
  - match goal with |- context [ConsulRegistry.watch_loop name rest lastIndex ?s0] =>
      destruct (IH lastIndex s0) as (s2 & st & k & -> & Hcl & Hlen & Herr & Hslept) end.
    exists s2, st, (S k). simpl in *. split_and!; try done.
    + lia.
    + rewrite Herr, errors_logged_snoc, Hlog. simpl. lia.
    + rewrite Hslept, Hsl, <- app_assoc. done.
Qed.

End ConsulWatch.

Lemma etcd_watch_delivers_in_order_witness :
  ∃ s' st,
    discovery.EtcdRegistry.Watch sample.unmarshal "greeter"
      [discovery.EtcdRegistry.Response sample.emptied]
      (sample.etcd_env sample.greeter_cluster) = (s', inl st)
    ∧ discovery.delivered st = [[sample.greeter]; []]
    ∧ discovery.closed st = false.
Proof.
  destruct (etcd_watch_delivers_in_order sample.unmarshal "greeter" [sample.emptied]
              (sample.etcd_env sample.greeter_cluster) eq_refl)
    as (s' & st & E & Hdel & Hcl).
  { repeat constructor. }
  exists s', st. split_and!; [exact E| |exact Hcl].
  rewrite Hdel. vm_compute. reflexivity.
Defined.

Lemma etcd_stream_closes_only_on_witness :
  Exists (fun input =>
            match input with
            | discovery.EtcdRegistry.ChannelClosed => True
            | discovery.EtcdRegistry.Response resp =>
                discovery.EtcdRegistry.Err resp ≠ None
                ∨ discovery.EtcdRegistry.ctx_done resp = true
            end)
    [discovery.EtcdRegistry.Response sample.emptied;
     discovery.EtcdRegistry.Response sample.broken_watch].
Proof.
  refine (etcd_stream_closes_only_on sample.unmarshal "greeter"
            [discovery.EtcdRegistry.Response sample.emptied;
             discovery.EtcdRegistry.Response sample.broken_watch]
            (sample.etcd_env sample.greeter_cluster) _ _ _ _).
  - vm_compute. reflexivity.
  - reflexivity.
Defined.

Lemma consul_stream_closes_only_on_cancel_witness :
  Exists (fun p => discovery.ConsulRegistry.done_at_top p = true
                   ∨ discovery.ConsulRegistry.done_at_send p = true)
    [sample.poll_ok; sample.poll_cancelled].
Proof.
  refine (consul_stream_closes_only_on_cancel "greeter"
            [sample.poll_ok; sample.poll_cancelled] 0 sample.consul_env _ _ _ _).
  - vm_compute. reflexivity.
  - reflexivity.
Defined.

Lemma consul_watch_turns_accounted_witness :
  ∃ s' st k,
    discovery.ConsulRegistry.watch_loop "greeter" [sample.poll_failing; sample.poll_ok] 0
      sample.consul_env = (s', st)
    ∧ discovery.closed st = false
    ∧ length (discovery.delivered st) + k = 2
    ∧ errors_logged (discovery.ConsulRegistry.logger s') = k
    ∧ discovery.ConsulRegistry.slept s' = replicate k 5%Z.
Proof.
  refine (consul_watch_turns_accounted "greeter" [sample.poll_failing; sample.poll_ok] 0
            sample.consul_env _).
  repeat constructor.
Defined.

(** ** ServiceManager, further *)

Section ManagerMore.

Import discovery.

Context {R : Type} `{!Registry R}.

(** X12: a record that is not yet tracked, registered and then
    deregistered with both backend calls succeeding, leaves the
    RegisteredSet as it was. *)
Theorem ServiceManager_register_deregister
    (sm : ServiceManager R) (service : ServiceInfo) (r1 r2 : R) :
  services sm !! service_key service = None →
  Register service (registry sm) = (r1, None) →
  Deregister service r1 = (r2, None) →
  snd (RegisterService service sm) = None
  ∧ services (fst (RegisterService service sm)) !! service_key service = Some service
  ∧ snd (DeregisterService service (fst (RegisterService service sm))) = None
  ∧ services (fst (DeregisterService service (fst (RegisterService service sm))))
    = services sm.
Proof.
  intros Hfree HR HD. unfold RegisterService. rewrite HR. simpl.
  unfold DeregisterService. simpl. rewrite HD. simpl.
  split_and!; try done.
  - apply lookup_insert_eq.
  - rewrite delete_insert_eq. by apply delete_id.
Qed.

End ManagerMore.

Section ManagerKeys.

Import discovery.

Lemma app_first_colon_inj a a' r r' :
  Str.no_colon a = true → Str.no_colon a' = true →
  a +:+ ":" +:+ r = a' +:+ ":" +:+ r' → a = a' ∧ r = r'.
Proof.
  unfold Str.no_colon. revert a'.
  induction a as [|c a IH]; intros [|c' a']; simpl; intros Ha Ha' E.
  - by inversion E.
  - rewrite !app_cons, ?app_nil_l in E. inversion E; subst. by simpl in Ha'.
  - rewrite !app_cons, ?app_nil_l in E. inversion E; subst. by simpl in Ha.
  - rewrite !app_cons, ?app_nil_l in E. inversion E as [[Hc E']]; subst.
    apply andb_prop in Ha as [_ Ha]. apply andb_prop in Ha' as [_ Ha'].
    destruct (IH a' Ha Ha' E') as [-> ->]. done.
Qed.

(** X13: the manager's key tells records apart. Two records whose names
    contain no colon have the same key only if they agree on name,
    address and port. *)
Theorem service_key_inj (s1 s2 : ServiceInfo) :
  Str.no_colon (Name s1) = true → Str.no_colon (Name s2) = true →
  service_key s1 = service_key s2 →
  Name s1 = Name s2 ∧ Address s1 = Address s2 ∧ Port s1 = Port s2.
Proof.
  intros H1 H2. unfold service_key. intros E.
  apply app_first_colon_inj in E as [-> E]; [|done..].
  apply app_colon_inj in E as [-> E]; try apply pretty_Z_chars.
  by apply (inj pretty) in E.
Qed.

End ManagerKeys.

(** ** ServiceManager and the caller's records *)

Section ManagerRecords.

Import discovery discovery.Pointers.

Context {R : Type} `{!Registry R}.

(** Each call does to the set of pointers what it does to the set of the
    records they point to. *)
Lemma RegisterService_view (service : Ptr) (h : Records) (sm : ServiceManager R) :
  discovery.RegisterService (h service) (view h sm)
  = (view h (fst (RegisterService service h sm)), snd (RegisterService service h sm)).
Proof.
  unfold discovery.RegisterService, RegisterService, view. simpl.
  destruct (Register (h service) (registry sm)) as [r' [err|]]; simpl; [done|].
  by rewrite fmap_insert.
Qed.

Lemma DeregisterService_view (service : Ptr) (h : Records) (sm : ServiceManager R) :
  discovery.DeregisterService (h service) (view h sm)
  = (view h (fst (DeregisterService service h sm)), snd (DeregisterService service h sm)).
Proof.
  unfold discovery.DeregisterService, DeregisterService, view. simpl.
  destruct (Deregister (h service) (registry sm)) as [r' [err|]]; simpl; [done|].
  by rewrite fmap_delete.
Qed.

Lemma deregister_loop_view (order : list Ptr) (h : Records) (sm : ServiceManager R) :
  fold_left discovery.deregister_one (h <$> order) (view h sm)
  = view h (fold_left (deregister_one h) order sm).
Proof.
  revert sm. induction order as [|service rest IH]; intros sm; [done|].
  rewrite fmap_cons. simpl. rewrite <- IH. f_equal.
  unfold discovery.deregister_one, deregister_one, view. simpl.
  by destruct (Deregister (h service) (registry sm)) as [r' [err|]].
Qed.

Lemma DeregisterAll_in_view (order : list Ptr) (h : Records) (sm : ServiceManager R) :
  discovery.DeregisterAll_in (h <$> order) (view h sm)
  = (view h (fst (DeregisterAll_in order h sm)), snd (DeregisterAll_in order h sm)).
Proof.
  unfold discovery.DeregisterAll_in, DeregisterAll_in. rewrite deregister_loop_view.
  unfold view. simpl. by rewrite fmap_empty.
Qed.

Lemma held_lookup (sm : ServiceManager R) k service :
  services sm !! k = Some service → held sm service = true.
Proof.
  intros Hk. unfold held. apply bool_decide_eq_true.
  apply list_elem_of_fmap. exists (k, service). split; [done|].
  by apply elem_of_map_to_list.
Qed.

Lemma keyed_act (st : Records * ServiceManager R) (a : Action) :
  keeps_key st a = true → keyed st → keyed (act st a).
Proof.
  destruct st as [h sm]. intros Ha Hk. destruct a as [p|p| |p v]; simpl in *.
  - unfold RegisterService. destruct (Register (h p) (registry sm)) as [r' [err|]]; simpl.
    + exact Hk.
    + intros k q. simpl. intros [[<- <-]|[_ Hq]]%lookup_insert_Some; [done|].
      by apply (Hk k q).
  - unfold DeregisterService. destruct (Deregister (h p) (registry sm)) as [r' [err|]]; simpl.
    + exact Hk.
    + intros k q. simpl. intros [_ Hq]%lookup_delete_Some. by apply (Hk k q).
  - intros k q. unfold DeregisterAll, DeregisterAll_in. simpl. by rewrite lookup_empty.
  - intros k q. simpl. intros Hq. unfold write.
    destruct (decide (q = p)) as [->|Hne]; [|by apply (Hk k q)].
    rewrite (held_lookup sm k p Hq) in Ha. simpl in Ha.
    apply bool_decide_eq_true in Ha. rewrite Ha. by apply (Hk k p).
Qed.

(** X11: the RegisteredSet holds pointers to the caller's records.
    Whatever calls a process makes on a manager made by
    [NewServiceManager], whatever it writes to its records in between
    and whatever the backend answers: as long as no write changes the
    key (name, address and port) of a record while the set holds it,
    every record of the set sits under the key built from the name,
    address and port it has now. *)
Theorem ServiceManager_keeps_records_keyed
    (registry : R) (logger : Log) (h : Records) (l : list Action) :
  keeps_keys l (h, NewServiceManager registry logger) = true →
  keyed (acts l (h, NewServiceManager registry logger)).
Proof.
  unfold acts.
  assert (∀ st : Records * ServiceManager R,
            keeps_keys l st = true → keyed st → keyed (fold_left act l st)) as H.
  { induction l as [|a l IH]; intros st Hl Hk; [done|]. simpl in *.
    apply andb_prop in Hl as [Ha Hl]. apply IH; [done|]. by apply keyed_act. }
  intros Hl. apply H; [done|]. intros k q. simpl. by rewrite lookup_empty.
Qed.

End ManagerRecords.

Lemma ServiceManager_keeps_records_keyed_witness :
  discovery.Pointers.keeps_keys sample.metadata_changed
    (sample.records, discovery.Pointers.NewServiceManager client.NewMockRegistry []) = true
  ∧ discovery.Pointers.keyed
      (discovery.Pointers.acts sample.metadata_changed
         (sample.records, discovery.Pointers.NewServiceManager client.NewMockRegistry [])).
Proof.
  assert (discovery.Pointers.keeps_keys sample.metadata_changed
            (sample.records, discovery.Pointers.NewServiceManager client.NewMockRegistry [])
          = true) as Hl by (vm_compute; reflexivity).
  split; [exact Hl|].
  exact (ServiceManager_keeps_records_keyed client.NewMockRegistry [] sample.records
           sample.metadata_changed Hl).
Defined.

(** A write that changes the port of a record the set holds leaves the
    record under the key of its old port; [DeregisterService] for the
    record then looks under the new key, and the record stays in the set. *)
Example write_to_registered_record :
  discovery.Pointers.keeps_keys sample.port_changed
    (sample.records, discovery.Pointers.NewServiceManager client.NewMockRegistry []) = false
  ∧ discovery.Pointers.services
      (snd (discovery.Pointers.acts sample.port_changed
              (sample.records, discovery.Pointers.NewServiceManager client.NewMockRegistry [])))
      !! "greeter:10.0.0.5:9090" = Some 1%positive
  ∧ discovery.service_key
      (fst (discovery.Pointers.acts sample.port_changed
              (sample.records, discovery.Pointers.NewServiceManager client.NewMockRegistry []))
         1%positive)
    = "greeter:10.0.0.5:9091"
  ∧ snd (discovery.Pointers.DeregisterService 1%positive
           (fst (discovery.Pointers.acts sample.port_changed
                   (sample.records,
                    discovery.Pointers.NewServiceManager client.NewMockRegistry [])))
           (snd (discovery.Pointers.acts sample.port_changed
                   (sample.records,
                    discovery.Pointers.NewServiceManager client.NewMockRegistry []))))
    = None
  ∧ discovery.Pointers.services
      (fst (discovery.Pointers.DeregisterService 1%positive
              (fst (discovery.Pointers.acts sample.port_changed
                      (sample.records,
                       discovery.Pointers.NewServiceManager client.NewMockRegistry [])))
              (snd (discovery.Pointers.acts sample.port_changed
                      (sample.records,
                       discovery.Pointers.NewServiceManager client.NewMockRegistry [])))))
      !! "greeter:10.0.0.5:9090" = Some 1%positive.
Proof. vm_compute. split_and!; reflexivity. Qed.

Section ManagerOverEtcd.

Import clientv3 discovery discovery.EtcdRegistry.

Context (json_Marshal : ServiceInfo → result string).
Context (json_Unmarshal : string → result ServiceInfo).

(** A [Deregister] whose calls reach the server never brings a key back. *)
Lemma Deregister_keeps_absent service s s' k :
  faults (cluster s) = [] →
  EtcdRegistry.Deregister service s = (s', inl tt) →
  kvs (cluster s) !! k = None → kvs (cluster s') !! k = None.
Proof.
  intros Hf E Hk. destruct (Deregister_spec service s Hf) as (s0 & E0 & _ & _ & _ & Hkv & _).
  rewrite E in E0. injection E0 as <-. rewrite Hkv.
  apply lookup_delete_None. right.
  case_decide; [|done]. apply map_lookup_filter_None. by left.
Qed.

Lemma deregister_loop_over_etcd order (sm sm' : ServiceManager Env) :
  faults (cluster (registry sm)) = [] →
  sm' = fold_left (@deregister_one _ (EtcdRegistry_Registry json_Marshal json_Unmarshal))
          order sm →
  faults (cluster (registry sm')) = []
  ∧ self (registry sm') = self (registry sm)
  ∧ discovery.logger sm' = discovery.logger sm
  ∧ (∀ k, kvs (cluster (registry sm)) !! k = None →
          kvs (cluster (registry sm')) !! k = None)
  ∧ (∀ service, service ∈ order →
       kvs (cluster (registry sm')) !! key_of (registry sm) service = None).
Proof.
  revert sm sm'. induction order as [|service rest IH]; intros sm sm' Hf ->.
  { simpl. split_and!; try done. by intros service ?%elem_of_nil. }
  simpl.
  destruct (Deregister_spec service (registry sm) Hf)
    as (s1 & E & Hs1 & Hf1 & _ & Hkv & _).
  assert (@deregister_one _ (EtcdRegistry_Registry json_Marshal json_Unmarshal) sm service
          = {| registry := s1; discovery.logger := discovery.logger sm;
               services := services sm |})
    as Hone.
  { unfold deregister_one. simpl. by rewrite E. }
  rewrite Hone.
  match goal with |- context [fold_left _ rest ?sm1] =>
    destruct (IH sm1 _ Hf1 eq_refl) as (Hf' & Hs' & Hl' & Habs & Hdel) end.
  simpl in *. split_and!; try done.
  - congruence.
  - intros k Hk. apply Habs. by eapply (Deregister_keeps_absent service (registry sm)).
  - intros x [->|Hx]%elem_of_cons.
    + apply Habs. rewrite Hkv. apply lookup_delete_eq.
    + rewrite <- (key_of_self (registry sm) s1) by done. by apply Hdel.
Qed.

(** X14: shutdown over the lease-store backend. When the calls of
    [DeregisterAll] reach the server, the key of every record of the
    RegisteredSet is gone from the cluster afterwards (whichever lease
    the registry holds), nothing is logged as an error, and keys that
    were absent stay absent. *)
Theorem DeregisterAll_over_etcd_deletes_keys
    (sm sm' : ServiceManager Env) (err : option error) (k : string)
    (service : ServiceInfo) :
  faults (cluster (registry sm)) = [] →
  services sm !! k = Some service →
  @DeregisterAll _ (EtcdRegistry_Registry json_Marshal json_Unmarshal) sm = (sm', err) →
  kvs (cluster (registry sm')) !! key_of (registry sm) service = None
  ∧ errors_logged (discovery.logger sm') = errors_logged (discovery.logger sm)
  ∧ services sm' = ∅
  ∧ err = None.
Proof.
  intros Hf Hk. unfold DeregisterAll, DeregisterAll_in. intros [= <- <-]. simpl.
  destruct (deregister_loop_over_etcd (snd <$> map_to_list (services sm)) sm _ Hf eq_refl)
    as (_ & _ & Hl & _ & Hdel).
  split_and!; [|by rewrite Hl|done..].
  apply Hdel. apply list_elem_of_fmap. exists (k, service). split; [done|].
  by apply elem_of_map_to_list.
Qed.

End ManagerOverEtcd.

Lemma DeregisterAll_over_etcd_deletes_keys_witness :
  (clientv3.kvs
     (discovery.EtcdRegistry.cluster
        (discovery.registry
           (fst (@discovery.DeregisterAll _ sample.etcd_registry sample.tracked_manager)))))
    !! "/grpc-kit/services/greeter/10.0.0.5:9090" = None.
Proof.
  exact (proj1 (DeregisterAll_over_etcd_deletes_keys sample.marshal sample.unmarshal
                  sample.tracked_manager _ _ (discovery.service_key sample.greeter)
                  sample.greeter eq_refl eq_refl eq_refl)).
Defined.

Lemma ServiceManager_register_deregister_witness :
  discovery.services sample.empty_manager !! discovery.service_key sample.test_service = None
  ∧ discovery.services
      (fst (discovery.DeregisterService sample.test_service
              (fst (discovery.RegisterService sample.test_service sample.empty_manager))))
    = discovery.services sample.empty_manager.
Proof.
  split; [reflexivity|].
  exact (proj2 (proj2 (proj2
    (ServiceManager_register_deregister sample.empty_manager sample.test_service
       _ _ eq_refl eq_refl eq_refl)))).
Defined.

Lemma service_key_inj_witness :
  Str.no_colon (discovery.Name sample.greeter) = true
  ∧ Str.no_colon (discovery.Name sample.greeter_v1) = true
  ∧ discovery.service_key sample.greeter = discovery.service_key sample.greeter_v1
  ∧ discovery.Name sample.greeter = discovery.Name sample.greeter_v1
  ∧ discovery.Address sample.greeter = discovery.Address sample.greeter_v1
  ∧ discovery.Port sample.greeter = discovery.Port sample.greeter_v1.
Proof.
  split_and!; [reflexivity..| | |];
    apply (service_key_inj sample.greeter sample.greeter_v1 eq_refl eq_refl eq_refl).
Defined.

(** ** ClientFactory, further *)

Section FactoryMore.

Import discovery client.

Context {R : Type} `{!Registry R}.

(** What [createConnection] does to the table of connections. *)
Lemma createConnection_conns (f : ClientFactory R) name w f' w' out :
  createConnection f name w = (f', w', out) →
  match out with
  | Returned conn =>
      conns w !! conn = None
      ∧ conns w'
        = <[conn := {| grpc.target := "discovery:///" +:+ name;
                       grpc.opts := dial_options f; grpc.is_open := true |}]> (conns w)
      ∧ resolvers w' = <["discovery" := {| builder_serviceName := name |}]> (resolvers w)
  | Failed e =>
      conns w' = conns w
      ∧ ((∃ err, e = "failed to discover service " +:+ name +:+ ": " +:+ err
                 ∧ last (calls w') = Some (CallDiscover name (inr err)))
         ∨ (e = "service " +:+ name +:+ " not found"
            ∧ last (calls w') = Some (CallDiscover name (inl [])))
         ∨ (∃ err, e = "failed to dial " +:+ name +:+ ": " +:+ err
                   ∧ last (calls w')
                     = Some (CallDial name ("discovery:///" +:+ name) (inr err))))
  | Panicked _ => conns w' = conns w ∧ registry f = None
  end.
Proof.
  unfold createConnection.
  destruct (registry f) as [r|] eqn:Hr; [|by intros [= <- <- <-]].
  destruct (Discover name r) as [r' [services|err]].
  2:{ intros [= <- <- <-]. split; [done|]. left. exists err. simpl.
      by rewrite last_snoc. }
  case_bool_decide as Hlen.
  { intros [= <- <- <-]. split; [done|]. right. left. simpl.
    destruct services; [|done]. by rewrite last_snoc. }
  simpl. unfold DialContext. simpl.
  destruct (dial_faults w) as [|[err|] fs]; intros [= <- <- <-]; simpl.
  - split_and!; try done. apply not_elem_of_dom. apply is_fresh.
  - split; [done|]. right. right. exists err. by rewrite last_snoc.
  - split_and!; try done. apply not_elem_of_dom. apply is_fresh.
Qed.

(** X15: a [GetClient] that returns an error leaves the cache and the
    connections as they were, and its message tells which step failed:
    "failed to discover service <name>: <err>" after a failed [Discover],
    "service <name> not found" after an empty one,
    "failed to dial <name>: <err>" after a failed dial. *)
Theorem GetClient_failure
    (f f' : ClientFactory R) (name : string) (w w' : Process) (e : error) :
  GetClient f name w = (f', w', Failed e) →
  clients f' = clients f
  ∧ conns w' = conns w
  ∧ ((∃ err, e = "failed to discover service " +:+ name +:+ ": " +:+ err
             ∧ last (calls w') = Some (CallDiscover name (inr err)))
     ∨ (e = "service " +:+ name +:+ " not found"
        ∧ last (calls w') = Some (CallDiscover name (inl [])))
     ∨ (∃ err, e = "failed to dial " +:+ name +:+ ": " +:+ err
               ∧ last (calls w')
                 = Some (CallDial name ("discovery:///" +:+ name) (inr err)))).
Proof.
  unfold GetClient, create_locked.
  destruct (clients f !! name) as [conn|] eqn:Hcache; [done|].
  destruct (createConnection f name w) as [[f1 w1] out] eqn:E.
  pose proof (createConnection_spec _ _ _ _ _ _ E) as (Hcl & _).
  pose proof (createConnection_conns _ _ _ _ _ _ E) as Hco.
  destruct out as [conn|e1|msg]; intros [= <- <- <-]; [].
  destruct Hco as [Hconns Hmsg]. by split_and!.
Qed.

(** X16: a [GetClient] that misses the cache and succeeds has dialled
    one new connection: it was not among the connections of the process
    before, it is open, its target is "discovery:///<name>", and it is
    the cache entry of the name; all other entries are as before. *)
Theorem GetClient_creates
    (f f' : ClientFactory R) (name : string) (w w' : Process) (conn : grpc.ClientConn) :
  clients f !! name = None →
  GetClient f name w = (f', w', Returned conn) →
  conns w !! conn = None
  ∧ conns w' !! conn
    = Some {| grpc.target := "discovery:///" +:+ name; grpc.opts := dial_options f;
              grpc.is_open := true |}
  ∧ (∀ c, c ≠ conn → conns w' !! c = conns w !! c)
  ∧ clients f' = <[name := conn]> (clients f).
Proof.
  intros Hmiss. unfold GetClient, create_locked. rewrite Hmiss.
  destruct (createConnection f name w) as [[f1 w1] out] eqn:E.
  pose proof (createConnection_spec _ _ _ _ _ _ E) as (Hcl & _).
  pose proof (createConnection_conns _ _ _ _ _ _ E) as Hco.
  destruct out as [c0|e1|msg]; intros [= <- <- <-]; [].
  destruct Hco as (Hnew & Hconns & _). simpl. rewrite Hconns, Hcl.
  split_and!; try done.
  - apply lookup_insert_eq.
  - intros c1 Hc. by rewrite lookup_insert_ne.
Qed.

(** [cache_sound] is kept by every move of the callers. *)
Lemma step_cache_sound (sys : System) m :
  cache_sound (factory sys) (process sys) →
  cache_sound (factory (step sys m)) (process (step sys m)).
Proof.
  intros [Hin Hinj]. destruct m as [i| |]; simpl; [|done..].
  destruct (callers sys !! i) as [[n|n|n o]|]; simpl; try done.
  { by destruct (clients (factory sys) !! n). }
  destruct (create_locked (factory sys) n (process sys)) as [[f' w'] out] eqn:E. simpl.
  unfold create_locked in E.
  destruct (clients (factory sys) !! n) as [conn|] eqn:Hcache.
  { by injection E as <- <- <-. }
  destruct (createConnection (factory sys) n (process sys)) as [[f1 w1] out1] eqn:EC.
  pose proof (createConnection_spec _ _ _ _ _ _ EC) as (Hcl & _).
  pose proof (createConnection_conns _ _ _ _ _ _ EC) as Hco.
  destruct out1 as [conn|e|msg]; injection E as <- <- <-.
  - destruct Hco as (Hnew & Hconns & _). split; simpl; rewrite ?Hconns, Hcl.
    + intros k c [[<- <-]|[Hne Hk]]%lookup_insert_Some.
      * rewrite lookup_insert_eq. eauto.
      * destruct (decide (conn = c)) as [->|Hc].
        { rewrite lookup_insert_eq. eauto. }
        rewrite lookup_insert_ne by done. by eapply Hin.
    + intros n1 n2 c H1 H2.
      apply lookup_insert_Some in H1 as [[E1 Ec1]|[Hne1 H1]];
        apply lookup_insert_Some in H2 as [[E2 Ec2]|[Hne2 H2]].
      * congruence.
      * subst c. destruct (Hin _ _ H2) as [st Hst]. congruence.
      * subst c. destruct (Hin _ _ H1) as [st Hst]. congruence.
      * by eapply Hinj.
  - destruct Hco as [Hconns _]. split; simpl; rewrite ?Hconns, ?Hcl; [exact Hin|exact Hinj].
  - destruct Hco as [Hconns _]. split; simpl; rewrite ?Hconns, ?Hcl; [exact Hin|exact Hinj].
Qed.

(** X17: on a factory made by [NewClientFactory], whatever callers ask
    for and however their calls interleave, every cached connection is
    one the process has dialled and no two names share a connection. *)
Theorem cache_never_shares_connections
    (cfg : GRPCClientConfig) (reg : option R) (w0 : Process)
    (names : list string) (schedule : list Move) :
  cache_sound (factory (run schedule (start (NewClientFactory cfg reg) w0 names)))
    (process (run schedule (start (NewClientFactory cfg reg) w0 names))).
Proof.
  assert (∀ sys : System, cache_sound (factory sys) (process sys) →
            cache_sound (factory (run schedule sys)) (process (run schedule sys))) as H.
  { induction schedule as [|m rest IH]; intros sys Hs; [done|].
    simpl. apply IH. by apply step_cache_sound. }
  apply H. split; simpl; intros *; by rewrite lookup_empty.
Qed.

End FactoryMore.

Section CloseMore.

Import discovery client.

Context {R : Type}.

Lemma conn_Close_conns conn w c st :
  conns w !! c = Some st →
  ∃ st', conns (fst (conn_Close conn w)) !! c = Some st'
    ∧ grpc.target st' = grpc.target st
    ∧ (grpc.is_open st' = true → grpc.is_open st = true ∧ c ≠ conn).
Proof.
  intros Hc. unfold conn_Close.
  destruct (conns w !! conn) as [stc|] eqn:Hconn; simpl.
  - destruct (grpc.is_open stc) eqn:Hopen; simpl.
    + destruct (decide (conn = c)) as [->|Hne].
      * rewrite Hc in Hconn. injection Hconn as <-.
        rewrite lookup_insert_eq. eexists. split_and!; [reflexivity|done|].
        simpl. discriminate.
      * rewrite lookup_insert_ne by done. exists st.
        split_and!; try done; try (intros Ho; split; [done|congruence]).
    + exists st.
      split_and!; try done; try (intros Ho; split; [done|]; intros ->; congruence).
  - exists st.
    split_and!; try done; try (intros Ho; split; [done|]; intros ->; congruence).
Qed.

Lemma close_one_conns w entry c st :
  conns w !! c = Some st →
  ∃ st', conns (close_one w entry) !! c = Some st'
    ∧ grpc.target st' = grpc.target st
    ∧ (grpc.is_open st' = true → grpc.is_open st = true ∧ c ≠ snd entry).
Proof.
  intros Hc. destruct (conn_Close_conns (snd entry) w c st Hc) as (st' & H1 & H2 & H3).
  exists st'. unfold close_one. by destruct (conn_Close (snd entry) w) as [w1 [err|]].
Qed.

Lemma close_loop_conns order w c st :
  conns w !! c = Some st →
  ∃ st', conns (fold_left close_one order w) !! c = Some st'
    ∧ grpc.target st' = grpc.target st
    ∧ (grpc.is_open st' = true → grpc.is_open st = true ∧ c ∉ snd <$> order).
Proof.
  revert w st. induction order as [|entry rest IH]; intros w st Hc.
  { exists st. split_and!; try done. intros Ho. split; [done|]. by intros ?%elem_of_nil. }
  simpl. destruct (close_one_conns w entry c st Hc) as (st1 & H1 & Ht1 & Ho1).
  destruct (IH _ _ H1) as (st2 & H2 & Ht2 & Ho2).
  exists st2. split_and!; [done|congruence|].
  intros Ho. destruct (Ho2 Ho) as [Ho' Hnot]. destruct (Ho1 Ho') as [Ho'' Hne].
  split; [done|]. change (c ∉ snd entry :: (snd <$> rest)).
  by intros [?|?]%elem_of_cons.
Qed.

(** X18: [Close] closes every connection of the cache that the process
    has dialled, whatever the order of the range and whether or not it
    was already closed; no connection disappears and none is reopened. *)
Theorem Close_closes_cached_connections
    (f : ClientFactory R) (w : Process) (name : string) (conn : grpc.ClientConn)
    (st : grpc.ConnState) :
  clients f !! name = Some conn →
  conns w !! conn = Some st →
  ∃ st', conns (snd (fst (Close f w))) !! conn = Some st'
    ∧ grpc.target st' = grpc.target st
    ∧ grpc.is_open st' = false.
Proof.
  intros Hcache Hconn. unfold Close, Close_in. simpl.
  destruct (close_loop_conns (map_to_list (clients f)) w conn st Hconn)
    as (st' & H1 & H2 & H3).
  exists st'. split_and!; [done..|].
  destruct (grpc.is_open st') eqn:Ho; [|done].
  destruct (H3 eq_refl) as [_ Hnot]. exfalso. apply Hnot.
  apply list_elem_of_fmap. exists (name, conn). split; [done|].
  by apply elem_of_map_to_list.
Qed.

End CloseMore.

Section CloseThenGet.

Import discovery client.

Context {R : Type} `{!Registry R}.

(** X19: after [Close] the same name can be asked for again and gets a
    fresh entry: a [GetClient] that created a connection, then [Close],
    then a second successful [GetClient] for the name returns another
    connection, which is open, while the first one is closed. *)
Theorem GetClient_after_Close_is_fresh
    (f f1 f2 f3 : ClientFactory R) (w w1 w2 w3 : Process) (name : string)
    (c1 c2 : grpc.ClientConn) (err : option error) :
  clients f !! name = None →
  GetClient f name w = (f1, w1, Returned c1) →
  Close f1 w1 = (f2, w2, err) →
  GetClient f2 name w2 = (f3, w3, Returned c2) →
  c2 ≠ c1
  ∧ (∃ st1, conns w3 !! c1 = Some st1 ∧ grpc.is_open st1 = false)
  ∧ (∃ st2, conns w3 !! c2 = Some st2 ∧ grpc.is_open st2 = true)
  ∧ clients f3 !! name = Some c2.
Proof.
  intros Hmiss G1 HC G2.
  destruct (GetClient_creates _ _ _ _ _ _ Hmiss G1) as (_ & Hc1 & _ & Hf1).
  assert (clients f1 !! name = Some c1) as Hcached by (rewrite Hf1; apply lookup_insert_eq).
  destruct (Close_closes_cached_connections f1 w1 name c1 _ Hcached Hc1)
    as (st1 & Hst1 & _ & Hclosed).
  rewrite HC in Hst1. simpl in Hst1.
  assert (clients f2 = ∅) as Hempty.
  { unfold Close, Close_in in HC. by injection HC as <- _ _. }
  assert (clients f2 !! name = None) as Hmiss2 by (by rewrite Hempty, lookup_empty).
  destruct (GetClient_creates _ _ _ _ _ _ Hmiss2 G2) as (Hnew & Hc2 & Hother & Hf3).
  assert (c2 ≠ c1) as Hne by congruence.
  split_and!; [done| | |].
  - exists st1. split; [|done]. rewrite Hother by done. done.
  - eexists. split; [exact Hc2|done].
  - rewrite Hf3. apply lookup_insert_eq.
Qed.

End CloseThenGet.

Section ResolverFacts.

Import discovery client.

Lemma pushAddresses_pushed r services cl :
  pushed (pushAddresses r services cl) = pushed cl ++ [updateAddresses services].
Proof.
  unfold pushAddresses, UpdateState.
  by destruct (update_faults cl) as [|[err|] fs].
Qed.

(** X20: the loop of the resolver hands to the connection, in order and
    once each, exactly the snapshots that reach its [select] before the
    watch channel is found closed or the context is done, each
    translated to its host:port list; a refused [UpdateState] does not
    end the loop, and nothing that arrives after the loop has ended is
    pushed. The loop is still watching exactly when neither has happened. *)
Theorem resolver_pushes_until_stop
    (r : discoveryResolver) (events : list ResolverEvent) (cl : ConnLayer) :
  pushed (fst (resolver_loop r events cl))
  = pushed cl ++ (updateAddresses <$> received_until_stop events)
  ∧ (snd (resolver_loop r events cl) = Watching
     ↔ Forall (fun e => ∃ services, e = Received services) events).
Proof.
  revert cl. induction events as [|e rest IH]; intros cl.
  { simpl. rewrite app_nil_r. split; [done|]. by split. }
  destruct e as [services| |]; simpl.
  - destruct (IH (pushAddresses r services cl)) as [Hp Hs].
    rewrite Hp, pushAddresses_pushed, <- app_assoc. split; [done|].
    rewrite Hs. split.
    + intros Hall. constructor; [by eexists|done].
    + by intros [_ Hall]%Forall_cons.
  - rewrite app_nil_r. split; [done|]. split; [done|].
    intros [[services [=]] _]%Forall_cons.
  - rewrite app_nil_r. split; [done|]. split; [done|].
    intros [[services [=]] _]%Forall_cons.
Qed.

End ResolverFacts.

Lemma GetClient_failure_witness :
  snd (client.GetClient sample.test_factory "test-service" sample.failing_dial_process)
  = Failed "failed to dial test-service: context deadline exceeded"
  ∧ client.clients
      (fst (fst (client.GetClient sample.test_factory "test-service"
                   sample.failing_dial_process)))
    = client.clients sample.test_factory
  ∧ client.conns
      (snd (fst (client.GetClient sample.test_factory "test-service"
                   sample.failing_dial_process)))
    = client.conns sample.failing_dial_process.
Proof.
  split; [reflexivity|].
  pose proof (GetClient_failure sample.test_factory _ "test-service"
                sample.failing_dial_process _
                "failed to dial test-service: context deadline exceeded" eq_refl)
    as (H1 & H2 & _).
  by split.
Defined.

Lemma GetClient_creates_witness :
  client.clients sample.test_factory !! "test-service" = None
  ∧ snd (client.GetClient sample.test_factory "test-service" sample.fresh_process)
    = Returned 0
  ∧ client.conns sample.fresh_process !! 0 = None
  ∧ client.clients (fst sample.after_first) = <["test-service" := 0]> ∅.
Proof.
  split_and!; [reflexivity..|].
  exact (proj2 (proj2 (proj2
    (GetClient_creates sample.test_factory _ "test-service" sample.fresh_process _ 0
       eq_refl eq_refl)))).
Defined.

Lemma Close_closes_cached_connections_witness :
  client.clients (fst sample.after_first) !! "test-service" = Some 0
  ∧ ∃ st', client.conns (snd sample.after_close) !! 0 = Some st'
      ∧ grpc.target st' = "discovery:///test-service"
      ∧ grpc.is_open st' = false.
Proof.
  split; [reflexivity|].
  exact (Close_closes_cached_connections (fst sample.after_first) (snd sample.after_first)
           "test-service" 0
           {| grpc.target := "discovery:///test-service";
              grpc.opts := client.dial_options sample.test_factory;
              grpc.is_open := true |}
           eq_refl eq_refl).
Defined.

Lemma GetClient_after_Close_is_fresh_witness :
  snd (client.GetClient (fst sample.after_close) "test-service" (snd sample.after_close))
  = Returned 1
  ∧ 1 ≠ 0.
Proof.
  split; [reflexivity|].
  exact (proj1 (GetClient_after_Close_is_fresh sample.test_factory (fst sample.after_first)
                  (fst sample.after_close) _ sample.fresh_process (snd sample.after_first)
                  (snd sample.after_close) _ "test-service" 0 1 None
                  eq_refl eq_refl eq_refl eq_refl)).
Defined.
